(** * EcoQuest progression engine

    A shallow embedding of the progression logic of the [EcoQuestApp]
    component (points, level, missions, badges, hotspots, monsters and
    notifications) together with the way React commits its state updates.

    Numbers: points, counters, ids and levels are integer-valued JavaScript
    numbers and are modelled in [Z].  Coordinates and distances are modelled
    in [R] (the trigonometric functions of [calculateDistance] have no
    executable counterpart), and the arithmetic of
    [calculateEnvironmentScore] is modelled exactly in [Q]; both idealise
    IEEE doubles as exact numbers. *)

From Stdlib Require Import ZArith QArith Qround Reals List String Bool.
From Stdlib Require Import Lia Lra Lqa Psatz.
From Stdlib Require Import Qminmax.
Import ListNotations.

Local Open Scope string_scope.
Local Open Scope list_scope.
Local Open Scope Z_scope.

(** ** Data model

    Records carry the fields the engine reads or writes; fields that only
    feed the view (images, descriptions, place labels, dates) are left out. *)

(** [spot.level] is one of the strings 'low', 'medium', 'high'. *)
Inductive Severity : Type := low | medium | high.

(** [monster.type]: '플라스틱', '종이', '금속', '유리'. *)
Inductive WasteType : Type := plastic | paper | metal | glass.

Inductive Rarity : Type := common | uncommon | rare.

Inductive MissionKind : Type := daily | weekly.

Definition Severity_eqb (a b : Severity) : bool :=
  match a, b with
  | low, low | medium, medium | high, high => true
  | _, _ => false
  end.

Definition WasteType_eqb (a b : WasteType) : bool :=
  match a, b with
  | plastic, plastic | paper, paper | metal, metal | glass, glass => true
  | _, _ => false
  end.

(** [{ lat, lng }] as produced by the geolocation callback. *)
Record Location : Type := mkLocation { lat : R; lng : R }.

(** The name of a hotspot is either a literal of the seed data or the
    template [`${lat.toFixed(4)}, ${lng.toFixed(4)} 부근`] of a new one. *)
Inductive HotspotName : Type :=
| Named (s : string)
| NearCoords (lat lng : R).

Module Hotspot.
Record t : Type := mk
  { id : Z; name : HotspotName; level : Severity; lastReport : string;
    lat : R; lng : R; reportCount : Z }.
End Hotspot.

Module Monster.
Record t : Type := mk
  { id : Z; name : string; type : WasteType; points : Z;
    captured : bool; lat : R; lng : R; rarity : Rarity }.
End Monster.

Module Mission.
Record t : Type := mk
  { id : Z; title : string; type : MissionKind; reward : Z;
    completed : bool; progress : Z; total : Z }.
End Mission.

Module Badge.
Record t : Type := mk
  { id : Z; name : string; progress : Z; total : Z; unlocked : bool }.
End Badge.

Module Event.
Record t : Type := mk
  { id : Z; title : string; participants : Z; reward : Z }.
End Event.

(** The message of a notification is a template literal; each constructor
    stands for one template of the source with its interpolated values. *)
Inductive Message : Type :=
| MsgText (s : string)
| MsgLevelUp (newLevel : Z)
| MsgBadgeUnlocked (badgeName : string)
| MsgCaptured (monsterName : string) (points : Z)
| MsgMissionComplete (title : string) (reward : Z)
| MsgReportDone
| MsgJoined (title : string) (reward : Z)
| MsgInvited.

Module Notification.
Record t : Type := mk
  { id : Z; time : string; message : Message; urgent : bool; read : bool }.
End Notification.

(** One render of [EcoQuestApp]: the values of the state hooks the engine
    reads and writes. *)
Record State : Type := mkState
  { userPoints : Z;
    level : Z;
    userLocation : option Location;
    hotspots : list Hotspot.t;
    monsters : list Monster.t;
    notifications : list Notification.t;
    missions : list Mission.t;
    badges : list Badge.t;
    events : list Event.t }.

(** ** Geometry *)

Definition Rltb (x y : R) : bool := if Rlt_dec x y then true else false.

Definition deg2rad (deg : R) : R := (deg * (PI / 180))%R.

(** [Math.atan2(y, x)] on real arguments. *)
Definition Math_atan2 (y x : R) : R :=
  if Rlt_dec 0 x then atan (y / x)
  else if Rlt_dec x 0 then
         if Rle_dec 0 y then (atan (y / x) + PI)%R else (atan (y / x) - PI)%R
  else if Rlt_dec 0 y then (PI / 2)%R
  else if Rlt_dec y 0 then (- (PI / 2))%R
  else 0%R.

(** For latitudes between -90 and 90 degrees [a] lies between 0 and 1
    ([hav_range]), where the square roots are those of the source. *)
Definition calculateDistance (lat1 lng1 lat2 lng2 : R) : R :=
  let R_ := 6371%R in
  let dLat := deg2rad (lat2 - lat1) in
  let dLng := deg2rad (lng2 - lng1) in
  let a :=
    (sin (dLat / 2) * sin (dLat / 2) +
     cos (deg2rad lat1) * cos (deg2rad lat2) *
     sin (dLng / 2) * sin (dLng / 2))%R in
  let c := (2 * Math_atan2 (sqrt a) (sqrt (1 - a)))%R in
  (R_ * c)%R.


(** ** Environment score *)

(** [Math.round]: nearest integer, ties towards plus infinity. *)
Definition Math_round (x : Q) : Z := Qfloor (x + (1 # 2)).

Definition hotspotSeverity (hotspots : list Hotspot.t) : Z :=
  fold_left
    (fun total spot =>
       if Severity_eqb (Hotspot.level spot) high then total + 3
       else if Severity_eqb (Hotspot.level spot) medium then total + 2
       else total + 1)
    hotspots 0.

Definition calculateEnvironmentScore (hotspots : list Hotspot.t)
    (monsters : list Monster.t) : Z :=
  let capturedMonsters :=
    Z.of_nat (List.length (filter Monster.captured monsters)) in
  let totalMonsters := Z.of_nat (List.length monsters) in
  let captureRate : Q :=
    if 0 <? totalMonsters
    then (inject_Z capturedMonsters / inject_Z totalMonsters)%Q
    else 0%Q in
  Math_round
    ((100 - inject_Z (hotspotSeverity hotspots) * 5) * (6 # 10) +
     (captureRate * 100) * (4 # 10))%Q.

(** ** State updates

    A handler or an effect runs inside one render: it reads the values that
    render closed over and calls setters.  React queues the writes and
    applies them together after the run ([createRoot] batches them).  Every
    setter the engine calls hands React a plain value (see [valueToStore]
    below), never a function of the queued state, so within a run the writes
    to one hook overwrite each other and the last one stands.

    [M A] is a computation over the pending state; the render's own values
    are the section variable [c] below. *)

Definition M (A : Type) : Type := State -> A * State.

Definition ret {A : Type} (a : A) : M A := fun s => (a, s).

Definition bind {A B : Type} (m : M A) (k : A -> M B) : M B :=
  fun s => k (fst (m s)) (snd (m s)).

Notation "x <- m ;; k" := (bind m (fun x => k))
  (at level 61, m at next level, right associativity).
Notation "m ;; k" := (bind m (fun _ => k))
  (at level 61, right associativity).

Definition when (b : bool) (m : M unit) : M unit := if b then m else ret tt.

(** [Array.prototype.map] with a callback that calls setters. *)
Fixpoint mapM {A B : Type} (f : A -> M B) (l : list A) : M (list B) :=
  match l with
  | [] => ret []
  | a :: l' => b <- f a ;; bs <- mapM f l' ;; ret (b :: bs)
  end.

Definition with_userPoints (v : Z) (s : State) : State :=
  mkState v (level s) (userLocation s) (hotspots s) (monsters s)
    (notifications s) (missions s) (badges s) (events s).
Definition with_level (v : Z) (s : State) : State :=
  mkState (userPoints s) v (userLocation s) (hotspots s) (monsters s)
    (notifications s) (missions s) (badges s) (events s).
Definition with_userLocation (v : option Location) (s : State) : State :=
  mkState (userPoints s) (level s) v (hotspots s) (monsters s)
    (notifications s) (missions s) (badges s) (events s).
Definition with_hotspots (v : list Hotspot.t) (s : State) : State :=
  mkState (userPoints s) (level s) (userLocation s) v (monsters s)
    (notifications s) (missions s) (badges s) (events s).
Definition with_monsters (v : list Monster.t) (s : State) : State :=
  mkState (userPoints s) (level s) (userLocation s) (hotspots s) v
    (notifications s) (missions s) (badges s) (events s).
Definition with_notifications (v : list Notification.t) (s : State) : State :=
  mkState (userPoints s) (level s) (userLocation s) (hotspots s) (monsters s)
    v (missions s) (badges s) (events s).
Definition with_missions (v : list Mission.t) (s : State) : State :=
  mkState (userPoints s) (level s) (userLocation s) (hotspots s) (monsters s)
    (notifications s) v (badges s) (events s).
Definition with_badges (v : list Badge.t) (s : State) : State :=
  mkState (userPoints s) (level s) (userLocation s) (hotspots s) (monsters s)
    (notifications s) (missions s) v (events s).
Definition with_events (v : list Event.t) (s : State) : State :=
  mkState (userPoints s) (level s) (userLocation s) (hotspots s) (monsters s)
    (notifications s) (missions s) (badges s) v.

(** The argument of a setter: a value, or a function of the stored value. *)
Inductive SetStateAction (A : Type) : Type :=
| Value (v : A)
| Updater (f : A -> A).
Arguments Value {A} v.
Arguments Updater {A} f.

(** [const valueToStore =
      value instanceof Function ? value(storedValue) : value] *)
Definition valueToStore {A : Type} (storedValue : A) (value : SetStateAction A)
  : A :=
  match value with
  | Value v => v
  | Updater f => f storedValue
  end.

(** Severity of a hotspot as a function of its report count. *)
Definition levelOf (reportCount : Z) : Severity :=
  if 10 <? reportCount then high
  else if 5 <? reportCount then medium
  else low.

Section Render.

(** The values the running render closed over, and [Date.now()]. *)
Variable c : State.
Variable now : Z.

(** *** Setters

    The setters of the [useLocalStorage] hooks are its [setValue]
    (lines 198-206): it computes [valueToStore] from the [storedValue] of the
    render that created it and passes the result, a plain value, to React's
    setter.  A functional update therefore starts from [c], not from the
    writes queued before it. *)

Definition setUserPoints (value : SetStateAction Z) : M unit :=
  fun s => (tt, with_userPoints (valueToStore (userPoints c) value) s).
Definition setNotifications (value : SetStateAction (list Notification.t))
  : M unit :=
  fun s => (tt, with_notifications (valueToStore (notifications c) value) s).
Definition setHotspots (value : SetStateAction (list Hotspot.t)) : M unit :=
  fun s => (tt, with_hotspots (valueToStore (hotspots c) value) s).
Definition setMonsters (value : SetStateAction (list Monster.t)) : M unit :=
  fun s => (tt, with_monsters (valueToStore (monsters c) value) s).
Definition setMissions (value : SetStateAction (list Mission.t)) : M unit :=
  fun s => (tt, with_missions (valueToStore (missions c) value) s).
Definition setBadges (value : SetStateAction (list Badge.t)) : M unit :=
  fun s => (tt, with_badges (valueToStore (badges c) value) s).

(** Plain [useState] setters, called with values. *)
Definition setLevel (value : Z) : M unit :=
  fun s => (tt, with_level value s).
Definition setEvents (value : list Event.t) : M unit :=
  fun s => (tt, with_events value s).
Definition setUserLocation (value : Location) : M unit :=
  fun s => (tt, with_userLocation (Some value) s).

(** [{ id, time: '방금', message, urgent: false, read: false }] *)
Definition notify (id : Z) (message : Message) : Notification.t :=
  Notification.mk id "방금" message false false.

(** *** Effects *)

Definition setBadgeProgress (v : Z) (badge : Badge.t) : Badge.t :=
  Badge.mk (Badge.id badge) (Badge.name badge) v (Badge.total badge)
    (Badge.unlocked badge).

Definition levelEffect : M unit :=
  let newLevel := userPoints c / 100 + 1 in
  when (negb (newLevel =? level c))
    (setLevel newLevel ;;
     when (level c <? newLevel)
       (let newNotification := notify now (MsgLevelUp newLevel) in
        setNotifications (Updater (fun prev => newNotification :: prev)) ;;
        let updatedBadges :=
          map (fun badge =>
                 if Badge.id badge =? 5
                 then setBadgeProgress newLevel badge else badge)
              (badges c) in
        setBadges (Value updatedBadges))).

Definition unlockable (badge : Badge.t) : bool :=
  (Badge.total badge <=? Badge.progress badge) && negb (Badge.unlocked badge).

Definition unlock (badge : Badge.t) : Badge.t :=
  Badge.mk (Badge.id badge) (Badge.name badge) (Badge.progress badge)
    (Badge.total badge) true.

Definition badgeEffect : M unit :=
  let hasUnlockableBadge := existsb unlockable (badges c) in
  when hasUnlockableBadge
    (updatedBadges <-
       mapM (fun badge =>
               if unlockable badge then
                 let newNotification :=
                   notify now (MsgBadgeUnlocked (Badge.name badge)) in
                 setNotifications
                   (Updater (fun prev => newNotification :: prev)) ;;
                 setUserPoints (Updater (fun prev => prev + 100)) ;;
                 ret (unlock badge)
               else ret badge)
            (badges c) ;;
     setBadges (Value updatedBadges)).

(** *** Mission progress

    The four handlers carry the same block, with the mission id and the id
    of the completion notification ([Date.now()] or [Date.now() + 1])
    changing from one to the other. *)

Definition advance (mission : Mission.t) : Mission.t :=
  let newProgress := Mission.progress mission + 1 in
  let completed := Mission.total mission <=? newProgress in
  Mission.mk (Mission.id mission) (Mission.title mission)
    (Mission.type mission) (Mission.reward mission) completed newProgress
    (Mission.total mission).

Definition updateMission (missionId notificationId : Z) : M unit :=
  match find (fun m => Mission.id m =? missionId) (missions c) with
  | Some found =>
      when (negb (Mission.completed found))
        (updatedMissions <-
           mapM (fun mission =>
                   if Mission.id mission =? missionId then
                     let newProgress := Mission.progress mission + 1 in
                     let completed := Mission.total mission <=? newProgress in
                     when (completed && negb (Mission.completed mission))
                       (setUserPoints
                          (Updater
                             (fun prev => prev + Mission.reward mission)) ;;
                        let missionCompleteNotification :=
                          notify notificationId
                            (MsgMissionComplete (Mission.title mission)
                               (Mission.reward mission)) in
                        setNotifications
                          (Updater
                             (fun prev => missionCompleteNotification :: prev))) ;;
                     ret (advance mission)
                   else ret mission)
                (missions c) ;;
         setMissions (Value updatedMissions))
  | None => ret tt
  end.

Definition addBadgeProgress (badgeId : Z) (badge : Badge.t) : Badge.t :=
  if Badge.id badge =? badgeId
  then setBadgeProgress (Badge.progress badge + 1) badge
  else badge.

(** *** Handlers *)

Definition setCaptured (monster : Monster.t) : Monster.t :=
  Monster.mk (Monster.id monster) (Monster.name monster)
    (Monster.type monster) (Monster.points monster) true
    (Monster.lat monster) (Monster.lng monster) (Monster.rarity monster).

(** The closing [setTimeout] of [captureMonster] only leaves the camera view
    and is not part of the engine state. *)
Definition captureMonster (id : Z) : M unit :=
  let updatedMonsters :=
    map (fun monster =>
           if Monster.id monster =? id then setCaptured monster else monster)
        (monsters c) in
  setMonsters (Value updatedMonsters) ;;
  match find (fun m => Monster.id m =? id) (monsters c) with
  | Some capturedMonster =>
      setUserPoints
        (Updater
           (fun prevPoints => prevPoints + Monster.points capturedMonster)) ;;
      (let newNotification :=
         notify now
           (MsgCaptured (Monster.name capturedMonster)
              (Monster.points capturedMonster)) in
       setNotifications (Updater (fun prev => newNotification :: prev))) ;;
      when (WasteType_eqb (Monster.type capturedMonster) plastic)
        (setBadges (Value (map (addBadgeProgress 1) (badges c)))) ;;
      when (WasteType_eqb (Monster.type capturedMonster) plastic)
        (updateMission 1 (now + 1))
  | None => ret tt
  end.

Definition reportAgain (spot : Hotspot.t) : Hotspot.t :=
  let newReportCount := Hotspot.reportCount spot + 1 in
  Hotspot.mk (Hotspot.id spot) (Hotspot.name spot) (levelOf newReportCount)
    "방금" (Hotspot.lat spot) (Hotspot.lng spot) newReportCount.

(** Both branches of [if (existingHotspot)] end in one [setHotspots]
    call; the branch is taken here inside its argument. *)
Definition reportIllegalDumping (location : Location) : M bool :=
  let existingHotspot :=
    find (fun spot =>
            Rltb (calculateDistance (Hotspot.lat spot) (Hotspot.lng spot)
                    (lat location) (lng location))
                 (1 / 10))
         (hotspots c) in
  setHotspots
    (Value
       match existingHotspot with
    | Some existingHotspot =>
        let updatedHotspots :=
          map (fun spot =>
                 if Hotspot.id spot =? Hotspot.id existingHotspot
                 then reportAgain spot else spot)
              (hotspots c) in
        updatedHotspots
    | None =>
        let newHotspot :=
          Hotspot.mk now (NearCoords (lat location) (lng location)) low
            "방금" (lat location) (lng location) 1 in
        hotspots c ++ [newHotspot]
       end) ;;
  updateMission 2 now ;;
  setBadges (Value (map (addBadgeProgress 2) (badges c))) ;;
  setUserPoints (Updater (fun prev => prev + 50)) ;;
  setNotifications
    (Updater (fun prev => notify (now + 1) MsgReportDone :: prev)) ;;
  ret true.

Definition addParticipant (e : Event.t) : Event.t :=
  Event.mk (Event.id e) (Event.title e) (Event.participants e + 1)
    (Event.reward e).

Definition joinEvent (eventId : Z) : M unit :=
  match find (fun e => Event.id e =? eventId) (events c) with
  | Some event =>
      setEvents
        (map (fun e => if Event.id e =? eventId then addParticipant e else e)
             (events c)) ;;
      (let joinNotification :=
         notify now (MsgJoined (Event.title event) (Event.reward event)) in
       setNotifications (Updater (fun prev => joinNotification :: prev))) ;;
      updateMission 4 (now + 1) ;;
      setBadges (Value (map (addBadgeProgress 4) (badges c)))
  | None => ret tt
  end.

Definition inviteFriend : M bool :=
  updateMission 3 now ;;
  setNotifications (Updater (fun prev => notify now MsgInvited :: prev)) ;;
  ret true.

Definition setRead (notif : Notification.t) : Notification.t :=
  Notification.mk (Notification.id notif) (Notification.time notif)
    (Notification.message notif) (Notification.urgent notif) true.

Definition markNotificationAsRead (id : Z) : M unit :=
  let updatedNotifications :=
    map (fun notif =>
           if Notification.id notif =? id then setRead notif else notif)
        (notifications c) in
  setNotifications (Value updatedNotifications).

Definition markAllNotificationsAsRead : M unit :=
  setNotifications (Value (map setRead (notifications c))).

End Render.

(** ** Commits

    After a handler returns React renders again and runs the two effects of
    the component.  Their dependency arrays hold setters that
    [useLocalStorage] recreates on every render, so both effects run after
    every render, in the order they are declared, against the same render.
    Their writes are applied together and, when there are any, the component
    renders again. *)

Definition run {A : Type} (handler : State -> M A) (c : State) : A * State :=
  handler c c.

Definition runEffects (now : Z) (c : State) : State :=
  snd (run (fun c => levelEffect c now ;; badgeEffect c now) c).

(** No effect calls a setter on this render. *)
Definition effectsIdle (c : State) : bool :=
  (userPoints c / 100 + 1 =? level c) && negb (existsb unlockable (badges c)).

Fixpoint settle (fuel : nat) (now : Z) (c : State) : State :=
  match fuel with
  | O => c
  | S fuel' => if effectsIdle c then c else settle fuel' now (runEffects now c)
  end.

(** A bound on the number of renders [settle] needs (see [settle_idle]). *)
Definition renders (c : State) : nat := 2 * List.length (badges c) + 1.

Inductive Action : Type :=
| Capture (id : Z)
| Report (location : Location)
| Join (eventId : Z)
| Invite
| MarkRead (id : Z)
| MarkAllRead
| Located (location : Location).

Definition handle (now : Z) (a : Action) (c : State) : State :=
  match a with
  | Capture id => snd (run (fun c => captureMonster c now id) c)
  | Report location =>
      snd (run (fun c => reportIllegalDumping c now location) c)
  | Join eventId => snd (run (fun c => joinEvent c now eventId) c)
  | Invite => snd (run (fun c => inviteFriend c now) c)
  | MarkRead id => snd (run (fun c => markNotificationAsRead c id) c)
  | MarkAllRead => snd (run (fun c => markAllNotificationsAsRead c) c)
  | Located location => snd (run (fun _ => setUserLocation location) c)
  end.

(** One engine operation: the handler, then the renders that follow it. *)
Definition dispatch (now : Z) (a : Action) (c : State) : State :=
  let s := handle now a c in
  settle (renders s) now s.

(** ** Seed data (the defaults of the [useLocalStorage] hooks) *)

Definition seedHotspots : list Hotspot.t :=
  [ Hotspot.mk 1 (Named "배밭골 원룸촌 입구") high "10분 전" 37.602 127.015 12;
    Hotspot.mk 2 (Named "정릉시장 뒷골목") medium "1시간 전" 37.603 127.018 8;
    Hotspot.mk 3 (Named "대학가 상점 거리") low "어제" 37.601 127.013 3;
    Hotspot.mk 4 (Named "정릉초등학교 앞") medium "2시간 전" 37.604 127.017 7 ].

Definition seedMonsters : list Monster.t :=
  [ Monster.mk 1 "쓰레기몬" plastic 50 false 37.602 127.015 common;
    Monster.mk 2 "페트병 드래곤" plastic 70 false 37.6031 127.0185 rare;
    Monster.mk 3 "종이 고스트" paper 30 true 37.6011 127.0129 common;
    Monster.mk 4 "캔 골렘" metal 60 false 37.6022 127.0155 uncommon;
    Monster.mk 5 "비닐 뱀프" plastic 45 false 37.604 127.017 common;
    Monster.mk 6 "유리병 마법사" glass 80 false 37.605 127.014 rare ].

Definition seedNotifications : list Notification.t :=
  [ Notification.mk 1 "15분 전"
      (MsgText "배밭골 원룸촌에 무단투기 발생 가능성이 높습니다") true false;
    Notification.mk 2 "1시간 전"
      (MsgText "정릉시장 뒷골목에 새로운 몬스터가 나타났습니다") false false;
    Notification.mk 3 "3시간 전"
      (MsgText "오늘의 미션: 플라스틱 몬스터 3마리 포획하기") false true;
    Notification.mk 4 "어제"
      (MsgText "축하합니다! EcoQuest 레벨 7에 도달했습니다!") false true ].

Definition seedMissions : list Mission.t :=
  [ Mission.mk 1 "플라스틱 몬스터 3마리 포획하기" daily 150 false 1 3;
    Mission.mk 2 "무단투기 핫스팟 신고하기" daily 100 false 0 1;
    Mission.mk 3 "친구 3명 초대하기" weekly 300 false 1 3;
    Mission.mk 4 "커뮤니티 활동 참여하기" weekly 250 false 0 1 ].

Definition seedBadges (level : Z) : list Badge.t :=
  [ Badge.mk 1 "플라스틱 사냥꾼" 4 10 false;
    Badge.mk 2 "환경 지킴이" 3 5 false;
    Badge.mk 3 "재활용 마스터" 12 20 false;
    Badge.mk 4 "커뮤니티 스타" 7 10 false;
    Badge.mk 5 "에코 히어로" level 10 false ].

Definition seedEvents : list Event.t :=
  [ Event.mk 1 "에코 그래피티 벽화 그리기" 23 300;
    Event.mk 2 "업사이클링 워크샵" 15 200;
    Event.mk 3 "정릉천 플로깅" 31 250 ].

(** The fallback of the geolocation effect, [{ lat: 37.602, lng: 127.015 }]. *)
Definition defaultLocation : Location := mkLocation 37.602 127.015.

(** The first render on an empty local storage. *)
Definition initialState : State :=
  let userPoints := 750 in
  let level := userPoints / 100 + 1 in
  mkState userPoints level None seedHotspots seedMonsters seedNotifications
    seedMissions (seedBadges level) seedEvents.

(** States the engine can be in: the first render, then any operations. *)
Inductive reachable : State -> Prop :=
| reachable_init : reachable initialState
| reachable_dispatch now a s :
    reachable s -> reachable (dispatch now a s).

(** ** The mission block, summarised

    Within one run every crossing mission writes the same two hooks, so only
    the last crossing mission (in stored order) leaves a trace. *)

Definition missionOpen (c : State) (missionId : Z) : bool :=
  match find (fun m => Mission.id m =? missionId) (missions c) with
  | Some found => negb (Mission.completed found)
  | None => false
  end.

Definition crosses (missionId : Z) (m : Mission.t) : bool :=
  (Mission.id m =? missionId)
  && ((Mission.total m <=? Mission.progress m + 1)
      && negb (Mission.completed m)).

Definition lastCrossing (missionId : Z) (l : list Mission.t)
    (acc : option Mission.t) : option Mission.t :=
  fold_left (fun acc m => if crosses missionId m then Some m else acc) l acc.

Definition rewardWrite (c : State) (notificationId : Z)
    (o : option Mission.t) (s : State) : State :=
  match o with
  | Some m =>
      with_notifications
        (notify notificationId
           (MsgMissionComplete (Mission.title m) (Mission.reward m))
         :: notifications c)
        (with_userPoints (userPoints c + Mission.reward m) s)
  | None => s
  end.

Definition advanceIf (missionId : Z) (m : Mission.t) : Mission.t :=
  if Mission.id m =? missionId then advance m else m.

Definition missionCallback (c : State) (missionId notificationId : Z)
    (mission : Mission.t) : M Mission.t :=
  if Mission.id mission =? missionId then
    let newProgress := Mission.progress mission + 1 in
    let completed := Mission.total mission <=? newProgress in
    when (completed && negb (Mission.completed mission))
      (setUserPoints c (Updater (fun prev => prev + Mission.reward mission)) ;;
       let missionCompleteNotification :=
         notify notificationId
           (MsgMissionComplete (Mission.title mission)
              (Mission.reward mission)) in
       setNotifications c
         (Updater (fun prev => missionCompleteNotification :: prev))) ;;
    ret (advance mission)
  else ret mission.

(** ** The badge effect, summarised

    Every unlockable badge writes the same two hooks with values computed
    from the render, so one bonus and one notification (that of the last
    unlockable badge) stand when the effect ends. *)

Definition badgeCallback (c : State) (now : Z) (badge : Badge.t) : M Badge.t :=
  if unlockable badge then
    let newNotification := notify now (MsgBadgeUnlocked (Badge.name badge)) in
    setNotifications c (Updater (fun prev => newNotification :: prev)) ;;
    setUserPoints c (Updater (fun prev => prev + 100)) ;;
    ret (unlock badge)
  else ret badge.

Definition unlockIf (badge : Badge.t) : Badge.t :=
  if unlockable badge then unlock badge else badge.

Definition lastUnlockable (l : list Badge.t) (acc : option Badge.t)
  : option Badge.t :=
  fold_left (fun acc b => if unlockable b then Some b else acc) l acc.

Definition bonusWrite (c : State) (now : Z) (o : option Badge.t) (s : State)
  : State :=
  match o with
  | Some b =>
      with_userPoints (userPoints c + 100)
        (with_notifications
           (notify now (MsgBadgeUnlocked (Badge.name b)) :: notifications c) s)
  | None => s
  end.

(** The level effect's write to the badges. *)
Definition heroProgress (newLevel : Z) (badge : Badge.t) : Badge.t :=
  if Badge.id badge =? 5 then setBadgeProgress newLevel badge else badge.

(** Badges still locked. *)
Definition locked (l : list Badge.t) : nat :=
  List.length (filter (fun b => negb (Badge.unlocked b)) l).

(** The level a render shows agrees with its points. *)
Definition levelOk (s : State) : Prop := level s = userPoints s / 100 + 1.

(** ** The handlers, summarised *)

Definition captureIf (id : Z) (monster : Monster.t) : Monster.t :=
  if Monster.id monster =? id then setCaptured monster else monster.

Definition reportIf (id : Z) (spot : Hotspot.t) : Hotspot.t :=
  if Hotspot.id spot =? id then reportAgain spot else spot.

(** The hotspot a report lands on: strictly closer than 0.1 km. *)
Definition withinRadius (location : Location) (spot : Hotspot.t) : bool :=
  Rltb (calculateDistance (Hotspot.lat spot) (Hotspot.lng spot)
          (lat location) (lng location))
       (1 / 10).

Definition newHotspot (now : Z) (location : Location) : Hotspot.t :=
  Hotspot.mk now (NearCoords (lat location) (lng location)) low "방금"
    (lat location) (lng location) 1.

Definition reportedHotspots (c : State) (now : Z) (location : Location)
  : list Hotspot.t :=
  match find (withinRadius location) (hotspots c) with
  | Some existingHotspot => map (reportIf (Hotspot.id existingHotspot)) (hotspots c)
  | None => hotspots c ++ [newHotspot now location]
  end.

(** The pending state once the mission block of a handler has run. *)
Definition afterMission (c : State) (missionId notificationId : Z) (s : State)
  : State :=
  if missionOpen c missionId
  then with_missions (map (advanceIf missionId) (missions c))
         (rewardWrite c notificationId
            (lastCrossing missionId (missions c) None) s)
  else s.

(** ** Invariants of the reachable states *)

Definition missionOk (m : Mission.t) : Prop :=
  0 <= Mission.reward m /\
  Mission.progress m <= Mission.total m /\
  (Mission.completed m = false -> Mission.progress m < Mission.total m).

Definition hotspotOk (spot : Hotspot.t) : Prop :=
  Hotspot.level spot = levelOf (Hotspot.reportCount spot).

Record Inv (s : State) : Prop := mkInv
  { inv_monsters : Forall (fun m => 0 <= Monster.points m) (monsters s);
    inv_missions : Forall missionOk (missions s);
    inv_mission_ids : NoDup (map Mission.id (missions s));
    inv_hotspots : Forall hotspotOk (hotspots s);
    inv_idle : effectsIdle s = true }.

(** ** The distance the specification names

    The reference is written from the textbook, not from the source: degrees
    become radians by [PI * degrees / 180], the differences are taken between
    the converted angles, and with [hav x = sin^2 (x / 2)] the haversine
    distance on a sphere of radius 6371 km is
    [2 * 6371 * asin (sqrt (hav dPhi + cos phi1 * cos phi2 * hav dLambda))].
    The great-circle distance itself is the radius times the central angle,
    which the spherical law of cosines gives as
    [acos (sin phi1 * sin phi2 + cos phi1 * cos phi2 * cos dLambda)]. *)

Definition hav (theta : R) : R := Rsqr (sin (theta / 2)).

Definition radians (degrees : R) : R := (PI * degrees / 180)%R.

Definition haversineDistance (lat1 lng1 lat2 lng2 : R) : R :=
  let phi1 := radians lat1 in
  let phi2 := radians lat2 in
  let lambda1 := radians lng1 in
  let lambda2 := radians lng2 in
  (2 * 6371 *
   asin (sqrt (hav (phi2 - phi1) +
               cos phi1 * cos phi2 * hav (lambda2 - lambda1))))%R.



(** ** The score the specification names

    [hotspotSeverity] as the sum over the hotspots of 3 for high, 2 for
    medium and 1 for low; [captureRate] as captured over total, 0 without
    monsters; the score as the rounded weighted sum. *)

Definition severityWeight (lv : Severity) : Z :=
  match lv with high => 3 | medium => 2 | low => 1 end.

Definition specSeverity (hotspots : list Hotspot.t) : Z :=
  fold_right Z.add 0 (map (fun spot => severityWeight (Hotspot.level spot)) hotspots).

Definition specCaptureRate (monsters : list Monster.t) : Q :=
  match monsters with
  | [] => 0%Q
  | _ =>
      (inject_Z (Z.of_nat (List.length (filter Monster.captured monsters))) /
       inject_Z (Z.of_nat (List.length monsters)))%Q
  end.

Definition specScore (hotspots : list Hotspot.t) (monsters : list Monster.t)
  : Z :=
  Math_round
    ((100 - inject_Z (specSeverity hotspots) * 5) * (6 # 10) +
     specCaptureRate monsters * 100 * (4 # 10))%Q.

(** ** Hotspots kept apart *)

(** Every hotspot is at least the report radius (0.1 km) away from the
    hotspots stored before it. *)
Definition separated (l : list Hotspot.t) : Prop :=
  ForallOrdPairs
    (fun a b =>
       (1 / 10 <= calculateDistance (Hotspot.lat a) (Hotspot.lng a)
                    (Hotspot.lat b) (Hotspot.lng b))%R)
    l.

(** The place of a stored hotspot, as the map screen passes it to
    [reportIllegalDumping] ([selectedHotspot] has [lat] and [lng]). *)
Definition locationOf (spot : Hotspot.t) : Location :=
  mkLocation (Hotspot.lat spot) (Hotspot.lng spot).

(** ** What holds on every render, at rest or not *)

Record Sound (s : State) : Prop := mkSound
  { sound_monsters : Forall (fun m => 0 <= Monster.points m) (monsters s);
    sound_rewards : Forall (fun m => 0 <= Mission.reward m) (missions s);
    sound_missions :
      Forall (fun m => Mission.completed m =
                       (Mission.total m <=? Mission.progress m))
        (missions s);
    sound_badge_ids : map Badge.id (badges s) = [1; 2; 3; 4; 5];
    sound_unlocked :
      Forall (fun b => Badge.unlocked b = true ->
                       Badge.total b <= Badge.progress b)
        (badges s);
    sound_level : level s <= userPoints s / 100 + 1;
    sound_hero_le :
      Forall (fun b => Badge.id b = 5 -> Badge.progress b <= level s)
        (badges s);
    sound_hero_eq :
      levelOk s ->
      Forall (fun b => Badge.id b = 5 -> Badge.progress b = level s)
        (badges s) }.

(** A badge before and after: same id and total, progress not lower, and
    still unlocked if it was. *)
Definition badgeGrows (b b' : Badge.t) : Prop :=
  Badge.id b' = Badge.id b /\
  Badge.name b' = Badge.name b /\
  Badge.total b' = Badge.total b /\
  Badge.progress b <= Badge.progress b' /\
  (Badge.unlocked b = true -> Badge.unlocked b' = true).

(** ** Notifications *)

(** [notifications.filter(notif => !notif.read).length] *)
Definition unreadNotificationsCount (notifications : list Notification.t)
  : nat :=
  List.length (filter (fun notif => negb (Notification.read notif)) notifications).

Definition readIf (id : Z) (notif : Notification.t) : Notification.t :=
  if Notification.id notif =? id then setRead notif else notif.

(** The old notifications are all still there, in their order, below the
    added ones; each is as it was or has been marked read. *)
Definition keepsNotifications (old new : list Notification.t) : Prop :=
  exists added kept,
    new = added ++ kept /\
    Forall2 (fun n n' => n' = n \/ n' = setRead n) old kept.

(** ** The camera screen

    [setupCamera] first awaits [getUserMedia].  When the promise resolves it
    offers a monster that is not captured and near the user, drawn with
    [Math.random()], or reports that nothing is near; when it rejects (or
    the browser has no [mediaDevices]) the [catch] sets [cameraError] and no
    monster is selected.  [handleCapture] captures the monster on offer, if
    there is one. *)



(** The state of the camera screen: the hooks [currentMonster],
    [cameraError], [flashMessage] and [showFlash], and the delay in
    milliseconds after which a pending timer closes the camera. *)
Module Camera.
Record t := mk {
  currentMonster : option Monster.t;
  cameraError : bool;
  flashMessage : string;
  showFlash : bool;
  closesAfter : option Z
}.
End Camera.







(** The score the home screen shows for a render. *)
Definition environmentScore (s : State) : Z :=
  calculateEnvironmentScore (hotspots s) (monsters s).

(** ** Progress bars (widths in percent) *)

(** [userPoints % 100], which the profile screen prints as the progress
    within the level and uses as the width of its level bar; [%] is the
    remainder with the sign of the dividend, exact on integers. *)
Definition levelProgress (userPoints : Z) : Z := Z.rem userPoints 100.

(** [(mission.progress / mission.total) * 100] *)
Definition missionBarWidth (m : Mission.t) : Q :=
  (inject_Z (Mission.progress m) / inject_Z (Mission.total m) * 100)%Q.

(** [Math.min((badge.progress / badge.total) * 100, 100)] *)
Definition badgeBarWidth (b : Badge.t) : Q :=
  Qmin (inject_Z (Badge.progress b) / inject_Z (Badge.total b) * 100)%Q 100%Q.

(** ** [useLocalStorage]

    One hook on its own: the value a mount reads back and what [setValue]
    leaves in React's state and in [window.localStorage].  [JSON.stringify]
    and [JSON.parse] on the values of the hook, and whether the browser
    accepts a write, are taken as given. *)

(** [window.localStorage]: the item stored under each key, if any. *)
Definition LocalStorage : Type := string -> option string.

Definition getItem (ls : LocalStorage) (key : string) : option string := ls key.

Definition setItem (ls : LocalStorage) (key value : string) : LocalStorage :=
  fun k => if String.eqb k key then Some value else ls k.

Section UseLocalStorage.

Variable A : Type.

(** [JSON.parse] gives [None] where it throws. *)
Variable JSON_stringify : A -> string.
Variable JSON_parse : string -> option A.

(** [setItem] throws when the browser refuses the write (quota, private
    mode); the [catch] of [setValue] logs and goes on. *)
Variable accepts : LocalStorage -> string -> string -> bool.

(** The initializer of the hook's [useState]:
    [item ? JSON.parse(item) : initialValue], and [initialValue] when
    anything throws.  A missing item is [null] and an empty one is falsy. *)
Definition readStoredValue (key : string) (initialValue : A)
    (ls : LocalStorage) : A :=
  match getItem ls key with
  | Some item =>
      if String.eqb item "" then initialValue
      else match JSON_parse item with
           | Some value => value
           | None => initialValue
           end
  | None => initialValue
  end.

(** [setValue]: the value handed to [setStoredValue], then the write to the
    storage. *)
Definition setValue (key : string) (storedValue : A)
    (value : SetStateAction A) (ls : LocalStorage) : A * LocalStorage :=
  let valueToStore := valueToStore storedValue value in
  (valueToStore,
   if accepts ls key (JSON_stringify valueToStore)
   then setItem ls key (JSON_stringify valueToStore)
   else ls).

End UseLocalStorage.

(** JSON for booleans, the codec of the [notifications-enabled] hook:
    [JSON.stringify] of a boolean, and [JSON.parse] read at the booleans.
    A JSON text is a value with JSON white space (space, tab, line feed,
    carriage return) allowed on both sides; [parseBool] gives the boolean of
    a text whose value is [true] or [false] and [None] for any other text. *)
Definition stringifyBool (b : bool) : string := if b then "true" else "false".

Definition isJsonWhiteSpace (c : Ascii.ascii) : bool :=
  let n := Ascii.nat_of_ascii c in
  ((n =? 32) || (n =? 9) || (n =? 10) || (n =? 13))%nat.

Fixpoint skipJsonWhiteSpace (s : string) : string :=
  match s with
  | String c rest => if isJsonWhiteSpace c then skipJsonWhiteSpace rest else s
  | EmptyString => s
  end.

Fixpoint stripPrefix (prefix s : string) : option string :=
  match prefix, s with
  | EmptyString, _ => Some s
  | String a prefix', String b s' =>
      if Ascii.eqb a b then stripPrefix prefix' s' else None
  | String _ _, EmptyString => None
  end.

Definition literalOnly (literal s : string) : bool :=
  match stripPrefix literal (skipJsonWhiteSpace s) with
  | Some rest =>
      match skipJsonWhiteSpace rest with EmptyString => true | _ => false end
  | None => false
  end.

Definition parseBool (s : string) : option bool :=
  if literalOnly "true" s then Some true
  else if literalOnly "false" s then Some false
  else None.

(** ** The service worker's fetch handler

    The cache storage and the network are the browser's: [caches.match],
    [cache.put] on the cache named [CACHE_NAME] and the outcome of
    [fetch(event.request)] are taken as given.  [cache.put] is started by
    the handler and not awaited; the model takes the state once it is done. *)

Inductive ResponseType : Type :=
| RBasic | RCors | RDefault | RError | ROpaque | ROpaqueRedirect.

Record Response : Type := mkResponse
  { Response_status : Z; Response_type : ResponseType; Response_body : string }.

(** The negation of
    [!response || response.status !== 200 || response.type !== 'basic']. *)
Definition cacheable (response : Response) : bool :=
  (Response_status response =? 200) &&
  match Response_type response with RBasic => true | _ => false end.

Section FetchHandler.

Variable Request Caches : Type.
Variable cachesMatch : Caches -> Request -> option Response.
Variable cachePut : Caches -> Request -> Response -> Caches.

(** [network] is what [fetch(event.request)] settles to, [None] when it
    rejects; the result is what [event.respondWith] receives ([None] for
    the [undefined] of the [catch]) and the cache storage afterwards. *)
Definition onFetch (network : option Response) (request : Request)
    (caches : Caches) : option Response * Caches :=
  match cachesMatch caches request with
  | Some response => (Some response, caches)
  | None =>
      match network with
      | Some response =>
          if cacheable response
          then (Some response, cachePut caches request response)
          else (Some response, caches)
      | None => (None, caches)
      end
  end.

(** A run of fetch events, each with the outcome of its own network
    request. *)
Definition serveAll (events : list (Request * option Response))
    (caches : Caches) : Caches :=
  fold_left (fun c e => snd (onFetch (snd e) (fst e) c)) events caches.

End FetchHandler.

(** A cache storage that matches requests by their URL. *)
Definition UrlCaches : Type := string -> option Response.
Definition urlMatch (c : UrlCaches) (url : string) : option Response := c url.
Definition urlPut (c : UrlCaches) (url : string) (r : Response) : UrlCaches :=
  fun u => if String.eqb u url then Some r else c u.

(** ** The chat of the community screen *)

(** The typed text, as its UTF-16 code units. *)
Definition JsString : Type := list N.

(** The code units [String.prototype.trim] strips: the WhiteSpace and
    LineTerminator code points of ECMAScript (all below 0x10000). *)
Definition isWhiteSpace (c : N) : bool :=
  ((c =? 0x9) || (c =? 0xA) || (c =? 0xB) || (c =? 0xC) || (c =? 0xD) ||
   (c =? 0x20) || (c =? 0xA0) || (c =? 0x1680) ||
   ((0x2000 <=? c) && (c <=? 0x200A)) ||
   (c =? 0x2028) || (c =? 0x2029) || (c =? 0x202F) || (c =? 0x205F) ||
   (c =? 0x3000) || (c =? 0xFEFF))%N.

Fixpoint trimStart (s : JsString) : JsString :=
  match s with
  | [] => []
  | c :: s' => if isWhiteSpace c then trimStart s' else s
  end.

Definition trim (s : JsString) : JsString :=
  rev (trimStart (rev (trimStart s))).

Record ChatMessage : Type := mkChatMessage
  { chat_id : Z; chat_author : string; chat_message : JsString;
    chat_time : string; chat_isMe : bool }.

(** The two hooks [handleSendMessage] reads and writes. *)
Record ChatState : Type := mkChatState
  { chatMessages : list ChatMessage; messageText : JsString }.

Definition handleSendMessage (now : Z) (c : ChatState) : ChatState :=
  match trim (messageText c) with
  | [] => c
  | _ :: _ =>
      let newMessage := mkChatMessage now "나" (messageText c) "방금" true in
      mkChatState (chatMessages c ++ [newMessage]) []
  end.

(** * Properties *)

(** ** Running the update monad *)

Lemma State_eta (s : State) :
  mkState (userPoints s) (level s) (userLocation s) (hotspots s) (monsters s)
    (notifications s) (missions s) (badges s) (events s) = s.
Proof. destruct s; reflexivity. Qed.

Lemma bind_run {A B : Type} (m : M A) (k : A -> M B) (s : State) :
  bind m k s = k (fst (m s)) (snd (m s)).
Proof. reflexivity. Qed.

Lemma missionCallback_run c mid nid m acc s :
  missionCallback c mid nid m (rewardWrite c nid acc s) =
  (advanceIf mid m,
   rewardWrite c nid (if crosses mid m then Some m else acc) s).
Proof.
  unfold missionCallback, advanceIf, crosses.
  destruct (Mission.id m =? mid); [|reflexivity].
  cbn [andb].
  destruct ((Mission.total m <=? Mission.progress m + 1)
            && negb (Mission.completed m)); [|reflexivity].
  destruct acc; reflexivity.
Qed.

Lemma mapM_missionCallback c mid nid l : forall acc s,
  mapM (missionCallback c mid nid) l (rewardWrite c nid acc s) =
  (map (advanceIf mid) l, rewardWrite c nid (lastCrossing mid l acc) s).
Proof.
  induction l as [|m l IH]; intros acc s; [reflexivity|].
  cbn [mapM map lastCrossing fold_left].
  rewrite bind_run, missionCallback_run. cbn [fst snd].
  rewrite bind_run. fold (lastCrossing mid l).
  rewrite IH. reflexivity.
Qed.

Lemma updateMission_run c mid nid s :
  snd (updateMission c mid nid s) =
  if missionOpen c mid
  then with_missions (map (advanceIf mid) (missions c))
         (rewardWrite c nid (lastCrossing mid (missions c) None) s)
  else s.
Proof.
  unfold updateMission, missionOpen.
  destruct (find _ (missions c)) as [found|]; [|reflexivity].
  destruct (Mission.completed found); [reflexivity|].
  cbn [negb when].
  change (mapM _ (missions c)) with (mapM (missionCallback c mid nid) (missions c)).
  rewrite bind_run.
  change s with (rewardWrite c nid None s) at 1 2.
  rewrite mapM_missionCallback. reflexivity.
Qed.

(** ** Effects *)

Lemma badgeCallback_run c now b acc s :
  badgeCallback c now b (bonusWrite c now acc s) =
  (unlockIf b, bonusWrite c now (if unlockable b then Some b else acc) s).
Proof.
  unfold badgeCallback, unlockIf.
  destruct (unlockable b); [|reflexivity].
  destruct acc; reflexivity.
Qed.

Lemma mapM_badgeCallback c now l : forall acc s,
  mapM (badgeCallback c now) l (bonusWrite c now acc s) =
  (map unlockIf l, bonusWrite c now (lastUnlockable l acc) s).
Proof.
  induction l as [|b l IH]; intros acc s; [reflexivity|].
  cbn [mapM map lastUnlockable fold_left].
  rewrite bind_run, badgeCallback_run. cbn [fst snd].
  rewrite bind_run. fold (lastUnlockable l).
  rewrite IH. reflexivity.
Qed.

Lemma badgeEffect_run c now s :
  snd (badgeEffect c now s) =
  if existsb unlockable (badges c)
  then with_badges (map unlockIf (badges c))
         (bonusWrite c now (lastUnlockable (badges c) None) s)
  else s.
Proof.
  unfold badgeEffect.
  destruct (existsb unlockable (badges c)); [|reflexivity].
  cbn [when].
  change (mapM _ (badges c)) with (mapM (badgeCallback c now) (badges c)).
  rewrite bind_run.
  change s with (bonusWrite c now None s) at 1 2.
  rewrite mapM_badgeCallback. reflexivity.
Qed.

Lemma levelEffect_run c now s :
  snd (levelEffect c now s) =
  let newLevel := userPoints c / 100 + 1 in
  if newLevel =? level c then s
  else if level c <? newLevel
       then with_badges (map (heroProgress newLevel) (badges c))
              (with_notifications
                 (notify now (MsgLevelUp newLevel) :: notifications c)
                 (with_level newLevel s))
       else with_level newLevel s.
Proof.
  unfold levelEffect. cbv zeta.
  destruct (userPoints c / 100 + 1 =? level c); [reflexivity|].
  cbn [negb when]. rewrite bind_run.
  destruct (level c <? userPoints c / 100 + 1); reflexivity.
Qed.

Lemma lastUnlockable_acc l : forall b, exists b', lastUnlockable l (Some b) = Some b'.
Proof.
  induction l as [|a l IH]; intros b; cbn; [eauto|].
  destruct (unlockable a); apply IH.
Qed.

Lemma lastUnlockable_some l :
  existsb unlockable l = true -> exists b, lastUnlockable l None = Some b.
Proof.
  induction l as [|a l IH]; cbn; [discriminate|].
  destruct (unlockable a); cbn.
  - intros _. apply lastUnlockable_acc.
  - exact IH.
Qed.

Lemma runEffects_eq now c :
  runEffects now c = snd (badgeEffect c now (snd (levelEffect c now c))).
Proof. reflexivity. Qed.

Lemma runEffects_userPoints now c :
  userPoints (runEffects now c) =
  if existsb unlockable (badges c) then userPoints c + 100 else userPoints c.
Proof.
  rewrite runEffects_eq, badgeEffect_run, levelEffect_run. cbv zeta.
  destruct (existsb unlockable (badges c)) eqn:E.
  - destruct (lastUnlockable_some _ E) as [b ->]. reflexivity.
  - destruct (_ =? _); [reflexivity|]. destruct (_ <? _); reflexivity.
Qed.

Lemma runEffects_level now c :
  level (runEffects now c) = userPoints c / 100 + 1.
Proof.
  rewrite runEffects_eq, badgeEffect_run, levelEffect_run. cbv zeta.
  assert (H : level
                (if userPoints c / 100 + 1 =? level c then c
                 else if level c <? userPoints c / 100 + 1
                      then with_badges
                             (map (heroProgress (userPoints c / 100 + 1)) (badges c))
                             (with_notifications
                                (notify now (MsgLevelUp (userPoints c / 100 + 1))
                                 :: notifications c)
                                (with_level (userPoints c / 100 + 1) c))
                      else with_level (userPoints c / 100 + 1) c)
              = userPoints c / 100 + 1).
  { destruct (_ =? _) eqn:E; [apply Z.eqb_eq in E; congruence|].
    destruct (_ <? _); reflexivity. }
  destruct (existsb unlockable (badges c)); [|exact H].
  destruct (lastUnlockable _ _); exact H.
Qed.

Lemma runEffects_badges now c :
  badges (runEffects now c) =
  if existsb unlockable (badges c) then map unlockIf (badges c)
  else if level c <? userPoints c / 100 + 1
       then map (heroProgress (userPoints c / 100 + 1)) (badges c)
       else badges c.
Proof.
  rewrite runEffects_eq, badgeEffect_run, levelEffect_run. cbv zeta.
  destruct (existsb unlockable (badges c)); [reflexivity|].
  destruct (_ =? _) eqn:E.
  - apply Z.eqb_eq in E. rewrite E, Z.ltb_irrefl. reflexivity.
  - destruct (_ <? _); reflexivity.
Qed.

Lemma runEffects_frame now c :
  userLocation (runEffects now c) = userLocation c /\
  hotspots (runEffects now c) = hotspots c /\
  monsters (runEffects now c) = monsters c /\
  missions (runEffects now c) = missions c /\
  events (runEffects now c) = events c.
Proof.
  rewrite runEffects_eq, badgeEffect_run, levelEffect_run. cbv zeta.
  destruct (existsb unlockable (badges c));
    [destruct (lastUnlockable _ _)|];
    (destruct (_ =? _); [|destruct (_ <? _)]); repeat split.
Qed.

(** ** The renders after a handler come to rest *)

Lemma unlockable_locked b : unlockable b = true -> Badge.unlocked b = false.
Proof.
  unfold unlockable. destruct (Badge.unlocked b); [|reflexivity].
  rewrite andb_false_r. discriminate.
Qed.

Lemma unlockIf_settled l : existsb unlockable (map unlockIf l) = false.
Proof.
  induction l as [|b l IH]; [reflexivity|].
  cbn [map existsb]. rewrite IH, orb_false_r.
  unfold unlockIf. destruct (unlockable b) eqn:E; [|exact E].
  unfold unlockable, unlock. cbn. apply andb_false_r.
Qed.

Lemma locked_unlockIf_le l : (locked (map unlockIf l) <= locked l)%nat.
Proof.
  unfold locked. induction l as [|b l IH]; [reflexivity|].
  cbn [map filter]. unfold unlockIf at 1.
  destruct (unlockable b) eqn:E.
  - rewrite (unlockable_locked _ E). cbn. lia.
  - destruct (Badge.unlocked b); cbn; lia.
Qed.

Lemma locked_unlockIf_lt l :
  existsb unlockable l = true -> (locked (map unlockIf l) < locked l)%nat.
Proof.
  induction l as [|b l IH]; [discriminate|].
  cbn [existsb]. intros H.
  pose proof (locked_unlockIf_le l) as Hle.
  unfold locked in *. cbn [map filter]. unfold unlockIf at 1.
  destruct (unlockable b) eqn:E.
  - rewrite (unlockable_locked _ E). cbn. lia.
  - cbn in H. specialize (IH H).
    destruct (Badge.unlocked b); cbn; lia.
Qed.

Lemma locked_heroProgress v l : locked (map (heroProgress v) l) = locked l.
Proof.
  unfold locked. induction l as [|b l IH]; [reflexivity|].
  cbn [map filter].
  replace (Badge.unlocked (heroProgress v b)) with (Badge.unlocked b)
    by (unfold heroProgress; destruct (_ =? _); reflexivity).
  destruct (Badge.unlocked b); cbn; rewrite IH; reflexivity.
Qed.

Lemma locked_zero_settled l : locked l = 0%nat -> existsb unlockable l = false.
Proof.
  unfold locked. induction l as [|b l IH]; [reflexivity|].
  cbn [filter existsb]. unfold unlockable at 1.
  destruct (Badge.unlocked b); cbn.
  - rewrite andb_false_r. exact IH.
  - discriminate.
Qed.

Lemma locked_le_length l : (locked l <= List.length l)%nat.
Proof. unfold locked. apply filter_length_le. Qed.

Lemma settle_of_idle fuel now s : effectsIdle s = true -> settle fuel now s = s.
Proof. destruct fuel; cbn; [reflexivity|]. intros ->. reflexivity. Qed.

Lemma settle_step fuel now s :
  effectsIdle s = false ->
  settle (S fuel) now s = settle fuel now (runEffects now s).
Proof. cbn. intros ->. reflexivity. Qed.

Lemma idle_iff s :
  effectsIdle s = true <-> levelOk s /\ existsb unlockable (badges s) = false.
Proof.
  unfold effectsIdle, levelOk. rewrite andb_true_iff, Z.eqb_eq, negb_true_iff.
  intuition congruence.
Qed.

(** A render with an unlockable badge leaves none behind and unlocks at
    least one. *)
Lemma runEffects_unlocks now s :
  existsb unlockable (badges s) = true ->
  existsb unlockable (badges (runEffects now s)) = false /\
  (locked (badges (runEffects now s)) < locked (badges s))%nat.
Proof.
  intros H. rewrite runEffects_badges, H. split.
  - apply unlockIf_settled.
  - apply locked_unlockIf_lt, H.
Qed.

(** A render without an unlockable badge only repairs the level. *)
Lemma runEffects_relevel now s :
  existsb unlockable (badges s) = false ->
  levelOk (runEffects now s) /\
  locked (badges (runEffects now s)) = locked (badges s).
Proof.
  intros H. unfold levelOk.
  rewrite runEffects_level, runEffects_userPoints, runEffects_badges, H.
  split; [reflexivity|].
  destruct (_ <? _); [apply locked_heroProgress|reflexivity].
Qed.

Lemma settle_rest now n :
  (forall s fuel, (locked (badges s) <= n)%nat -> levelOk s ->
                  (2 * n <= fuel)%nat -> effectsIdle (settle fuel now s) = true) /\
  (forall s fuel, (locked (badges s) <= n)%nat ->
                  (2 * n + 1 <= fuel)%nat -> effectsIdle (settle fuel now s) = true).
Proof.
  induction n as [|n [IHP IHQ]].
  - assert (P0 : forall s fuel, (locked (badges s) <= 0)%nat -> levelOk s ->
                   effectsIdle (settle fuel now s) = true).
    { intros s fuel Hl Hok.
      assert (Hi : effectsIdle s = true).
      { apply idle_iff. split; [exact Hok|]. apply locked_zero_settled. lia. }
      rewrite settle_of_idle; assumption. }
    split; [intros; apply P0; assumption|].
    intros s fuel Hl Hf.
    destruct (effectsIdle s) eqn:Hi; [rewrite settle_of_idle; assumption|].
    destruct fuel as [|fuel]; [lia|]. rewrite settle_step by assumption.
    assert (Hu : existsb unlockable (badges s) = false)
      by (apply locked_zero_settled; lia).
    destruct (runEffects_relevel now s Hu) as [Hok Hlk].
    apply P0; [lia|assumption].
  - assert (P : forall s fuel, (locked (badges s) <= S n)%nat -> levelOk s ->
                  (2 * S n <= fuel)%nat ->
                  effectsIdle (settle fuel now s) = true).
    { intros s fuel Hl Hok Hf.
      destruct (effectsIdle s) eqn:Hi; [rewrite settle_of_idle; assumption|].
      destruct fuel as [|fuel]; [lia|]. rewrite settle_step by assumption.
      destruct (existsb unlockable (badges s)) eqn:Hu.
      - destruct (runEffects_unlocks now s Hu) as [_ Hlt].
        apply IHQ; lia.
      - exfalso. assert (effectsIdle s = true) by (apply idle_iff; auto).
        congruence. }
    split; [exact P|].
    intros s fuel Hl Hf.
    destruct (effectsIdle s) eqn:Hi; [rewrite settle_of_idle; assumption|].
    destruct fuel as [|fuel]; [lia|]. rewrite settle_step by assumption.
    destruct (existsb unlockable (badges s)) eqn:Hu.
    + destruct (runEffects_unlocks now s Hu) as [Hu1 Hlt].
      set (s1 := runEffects now s) in *.
      destruct (effectsIdle s1) eqn:Hi1; [rewrite settle_of_idle; assumption|].
      destruct fuel as [|fuel]; [lia|]. rewrite settle_step by assumption.
      destruct (runEffects_relevel now s1 Hu1) as [Hok2 Hlk2].
      apply IHP; [lia|assumption|lia].
    + destruct (runEffects_relevel now s Hu) as [Hok1 Hlk1].
      apply P; [lia|assumption|lia].
Qed.

(** Enough renders: [renders s] of them bring the effects to rest. *)
Lemma settle_idle now s fuel :
  (renders s <= fuel)%nat -> effectsIdle (settle fuel now s) = true.
Proof.
  intros H.
  apply (proj2 (settle_rest now (locked (badges s)))); [lia|].
  pose proof (locked_le_length (badges s)). unfold renders in H. lia.
Qed.

(** More renders than needed change nothing. *)
Lemma settle_stable now s fuel :
  (renders s <= fuel)%nat -> settle fuel now s = settle (renders s) now s.
Proof.
  intros H. replace fuel with ((fuel - renders s) + renders s)%nat by lia.
  generalize (fuel - renders s)%nat as k. clear H.
  pose proof (settle_idle now s (renders s) (le_n _)) as Hi.
  revert Hi. generalize (renders s) as n. intros n. revert s.
  induction n as [|n IH]; intros s Hi k.
  - cbn in Hi. rewrite Nat.add_0_r. cbn. apply settle_of_idle, Hi.
  - rewrite Nat.add_succ_r. cbn [settle] in *.
    destruct (effectsIdle s); [reflexivity|]. apply IH, Hi.
Qed.

Lemma dispatch_idle now a s : effectsIdle (dispatch now a s) = true.
Proof. unfold dispatch. apply settle_idle. lia. Qed.

(** ** Handlers *)

Lemma captureMonster_run c now id :
  snd (captureMonster c now id c) =
  let s0 := with_monsters (map (captureIf id) (monsters c)) c in
  match find (fun m => Monster.id m =? id) (monsters c) with
  | None => s0
  | Some capturedMonster =>
      let s1 :=
        with_notifications
          (notify now (MsgCaptured (Monster.name capturedMonster)
                         (Monster.points capturedMonster))
           :: notifications c)
          (with_userPoints (userPoints c + Monster.points capturedMonster) s0) in
      if WasteType_eqb (Monster.type capturedMonster) plastic
      then afterMission c 1 (now + 1)
             (with_badges (map (addBadgeProgress 1) (badges c)) s1)
      else s1
  end.
Proof.
  unfold captureMonster. rewrite bind_run. cbv zeta.
  destruct (find _ (monsters c)) as [cm|]; [|reflexivity].
  rewrite !bind_run.
  destruct (WasteType_eqb (Monster.type cm) plastic); [|reflexivity].
  cbn [when]. rewrite updateMission_run. reflexivity.
Qed.

Lemma reportIllegalDumping_run c now location :
  reportIllegalDumping c now location c =
  (true,
   with_notifications (notify (now + 1) MsgReportDone :: notifications c)
     (with_userPoints (userPoints c + 50)
        (with_badges (map (addBadgeProgress 2) (badges c))
           (afterMission c 2 now
              (with_hotspots (reportedHotspots c now location) c))))).
Proof.
  unfold reportIllegalDumping. cbv zeta. rewrite !bind_run.
  rewrite updateMission_run. reflexivity.
Qed.

Lemma joinEvent_run c now eventId :
  snd (joinEvent c now eventId c) =
  match find (fun e => Event.id e =? eventId) (events c) with
  | Some event =>
      with_badges (map (addBadgeProgress 4) (badges c))
        (afterMission c 4 (now + 1)
           (with_notifications
              (notify now (MsgJoined (Event.title event) (Event.reward event))
               :: notifications c)
              (with_events
                 (map (fun e => if Event.id e =? eventId
                                then addParticipant e else e) (events c))
                 c)))
  | None => c
  end.
Proof.
  unfold joinEvent.
  destruct (find _ (events c)) as [ev|]; [|reflexivity].
  rewrite !bind_run, updateMission_run. reflexivity.
Qed.

Lemma inviteFriend_run c now :
  inviteFriend c now c =
  (true,
   with_notifications (notify now MsgInvited :: notifications c)
     (afterMission c 3 now c)).
Proof.
  unfold inviteFriend. rewrite !bind_run, updateMission_run. reflexivity.
Qed.

Lemma lastCrossing_spec mid l : forall acc m,
  lastCrossing mid l acc = Some m ->
  (In m l /\ crosses mid m = true) \/ acc = Some m.
Proof.
  induction l as [|a l IH]; intros acc m H; [right; exact H|].
  cbn in H. apply IH in H. destruct H as [[Hin Hc]|H].
  - left. split; [right; exact Hin|exact Hc].
  - destruct (crosses mid a) eqn:E.
    + inversion H; subst. left. split; [left; reflexivity|exact E].
    + right. exact H.
Qed.

Lemma lastCrossing_none mid l :
  existsb (crosses mid) l = false -> lastCrossing mid l None = None.
Proof.
  induction l as [|a l IH]; [reflexivity|].
  cbn. destruct (crosses mid a); [discriminate|]. exact IH.
Qed.

Lemma afterMission_frame c mid nid s :
  level (afterMission c mid nid s) = level s /\
  userLocation (afterMission c mid nid s) = userLocation s /\
  hotspots (afterMission c mid nid s) = hotspots s /\
  monsters (afterMission c mid nid s) = monsters s /\
  badges (afterMission c mid nid s) = badges s /\
  events (afterMission c mid nid s) = events s.
Proof.
  unfold afterMission. destruct (missionOpen c mid); [|repeat split].
  destruct (lastCrossing _ _ _); repeat split.
Qed.

Lemma afterMission_missions c mid nid s :
  missions (afterMission c mid nid s) =
  if missionOpen c mid then map (advanceIf mid) (missions c) else missions s.
Proof.
  unfold afterMission. destruct (missionOpen c mid); reflexivity.
Qed.

Lemma afterMission_userPoints c mid nid s :
  userPoints (afterMission c mid nid s) = userPoints s \/
  exists m, In m (missions c) /\ crosses mid m = true /\
            userPoints (afterMission c mid nid s) =
            userPoints c + Mission.reward m.
Proof.
  unfold afterMission. destruct (missionOpen c mid); [|left; reflexivity].
  destruct (lastCrossing _ _ _) as [m|] eqn:E; [|left; reflexivity].
  apply lastCrossing_spec in E. destruct E as [[Hin Hc]|]; [|discriminate].
  right. exists m. repeat split; assumption.
Qed.

Lemma afterMission_quiet c mid nid s :
  existsb (crosses mid) (missions c) = false ->
  userPoints (afterMission c mid nid s) = userPoints s /\
  notifications (afterMission c mid nid s) = notifications s.
Proof.
  intros H. unfold afterMission. rewrite (lastCrossing_none _ _ H).
  destruct (missionOpen c mid); split; reflexivity.
Qed.

(** *** What a handler does to each hook *)

Lemma map_captureIf_absent id l :
  find (fun m => Monster.id m =? id) l = None -> map (captureIf id) l = l.
Proof.
  induction l as [|m l IH]; [reflexivity|].
  cbn. unfold captureIf at 1. destruct (Monster.id m =? id); [discriminate|].
  intros H. rewrite IH by exact H. reflexivity.
Qed.

Lemma handle_monsters now a c :
  monsters (handle now a c) = monsters c \/
  exists id, monsters (handle now a c) = map (captureIf id) (monsters c).
Proof.
  destruct a; cbv beta iota delta [handle run].
  - right. exists id. rewrite captureMonster_run. cbv zeta.
    destruct (find _ _) as [cm|]; [|reflexivity].
    destruct (WasteType_eqb _ _); [|reflexivity].
    rewrite (proj1 (proj2 (proj2 (proj2 (afterMission_frame _ _ _ _))))).
    reflexivity.
  - left. rewrite reportIllegalDumping_run. cbn.
    rewrite (proj1 (proj2 (proj2 (proj2 (afterMission_frame _ _ _ _))))).
    reflexivity.
  - left. rewrite joinEvent_run. destruct (find _ _); [|reflexivity]. cbn.
    rewrite (proj1 (proj2 (proj2 (proj2 (afterMission_frame _ _ _ _))))).
    reflexivity.
  - left. rewrite inviteFriend_run. cbn.
    rewrite (proj1 (proj2 (proj2 (proj2 (afterMission_frame _ _ _ _))))).
    reflexivity.
  - left. reflexivity.
  - left. reflexivity.
  - left. reflexivity.
Qed.

Lemma handle_missions now a c :
  missions (handle now a c) = missions c \/
  exists mid, missionOpen c mid = true /\
              missions (handle now a c) = map (advanceIf mid) (missions c).
Proof.
  assert (K : forall mid nid s, missions s = missions c ->
            missions (afterMission c mid nid s) = missions c \/
            exists mid', missionOpen c mid' = true /\
              missions (afterMission c mid nid s) =
              map (advanceIf mid') (missions c)).
  { intros mid nid s Hs. rewrite afterMission_missions.
    destruct (missionOpen c mid) eqn:E; [|left; exact Hs].
    right. exists mid. split; [exact E|reflexivity]. }
  destruct a; cbv beta iota delta [handle run].
  - rewrite captureMonster_run. cbv zeta.
    destruct (find _ _) as [cm|]; [|left; reflexivity].
    destruct (WasteType_eqb _ _); [|left; reflexivity].
    apply K. reflexivity.
  - rewrite reportIllegalDumping_run. cbn. apply K. reflexivity.
  - rewrite joinEvent_run. destruct (find _ _); [|left; reflexivity]. cbn.
    apply K. reflexivity.
  - rewrite inviteFriend_run. cbn. apply K. reflexivity.
  - left. reflexivity.
  - left. reflexivity.
  - left. reflexivity.
Qed.

Lemma handle_hotspots now a c :
  hotspots (handle now a c) = hotspots c \/
  exists location, a = Report location /\
    hotspots (handle now a c) = reportedHotspots c now location.
Proof.
  destruct a; cbv beta iota delta [handle run].
  - left. rewrite captureMonster_run. cbv zeta.
    destruct (find _ _) as [cm|]; [|reflexivity].
    destruct (WasteType_eqb _ _); [|reflexivity].
    rewrite (proj1 (proj2 (proj2 (afterMission_frame _ _ _ _)))). reflexivity.
  - right. exists location. split; [reflexivity|].
    rewrite reportIllegalDumping_run. cbn.
    rewrite (proj1 (proj2 (proj2 (afterMission_frame _ _ _ _)))). reflexivity.
  - left. rewrite joinEvent_run. destruct (find _ _); [|reflexivity]. cbn.
    rewrite (proj1 (proj2 (proj2 (afterMission_frame _ _ _ _)))). reflexivity.
  - left. rewrite inviteFriend_run. cbn.
    rewrite (proj1 (proj2 (proj2 (afterMission_frame _ _ _ _)))). reflexivity.
  - left. reflexivity.
  - left. reflexivity.
  - left. reflexivity.
Qed.

(** Every write to the points starts from the render's points and adds a
    monster's point value, a mission's reward, or the report's 50. *)
Lemma handle_userPoints now a c :
  userPoints (handle now a c) = userPoints c \/
  (exists m, In m (monsters c) /\
             userPoints (handle now a c) = userPoints c + Monster.points m) \/
  (exists m, In m (missions c) /\
             userPoints (handle now a c) = userPoints c + Mission.reward m) \/
  userPoints (handle now a c) = userPoints c + 50.
Proof.
  destruct a; cbv beta iota delta [handle run].
  - rewrite captureMonster_run. cbv zeta.
    destruct (find _ _) as [cm|] eqn:F; [|left; reflexivity].
    apply find_some in F. destruct F as [Hin _].
    destruct (WasteType_eqb _ _).
    + destruct (afterMission_userPoints c 1 (now + 1)
                  (with_badges (map (addBadgeProgress 1) (badges c))
                     (with_notifications
                        (notify now (MsgCaptured (Monster.name cm) (Monster.points cm))
                         :: notifications c)
                        (with_userPoints (userPoints c + Monster.points cm)
                           (with_monsters (map (captureIf id) (monsters c)) c)))))
        as [H|[m [Hm [_ H]]]]; rewrite H.
      * right; left. exists cm. split; [exact Hin|reflexivity].
      * right; right; left. exists m. split; [exact Hm|reflexivity].
    + right; left. exists cm. split; [exact Hin|reflexivity].
  - right; right; right. rewrite reportIllegalDumping_run. reflexivity.
  - rewrite joinEvent_run. destruct (find _ _); [|left; reflexivity]. cbn.
    match goal with |- context [afterMission c 4 ?n ?s] =>
      destruct (afterMission_userPoints c 4 n s) as [H|[m [Hm [_ H]]]] end;
      rewrite H.
    + left. reflexivity.
    + right; right; left. exists m. split; [exact Hm|reflexivity].
  - rewrite inviteFriend_run. cbn.
    destruct (afterMission_userPoints c 3 now c) as [H|[m [Hm [_ H]]]];
      rewrite H.
    + left. reflexivity.
    + right; right; left. exists m. split; [exact Hm|reflexivity].
  - left. reflexivity.
  - left. reflexivity.
  - left. reflexivity.
Qed.

(** ** What the renders after a handler leave alone *)

Lemma settle_frame fuel now : forall s,
  userLocation (settle fuel now s) = userLocation s /\
  hotspots (settle fuel now s) = hotspots s /\
  monsters (settle fuel now s) = monsters s /\
  missions (settle fuel now s) = missions s /\
  events (settle fuel now s) = events s.
Proof.
  induction fuel as [|fuel IH]; intros s; cbn [settle]; [repeat split|].
  destruct (effectsIdle s); [repeat split|].
  destruct (IH (runEffects now s)) as (-> & -> & -> & -> & ->).
  apply runEffects_frame.
Qed.

Lemma runEffects_userPoints_le now s :
  userPoints s <= userPoints (runEffects now s).
Proof.
  rewrite runEffects_userPoints. destruct (existsb _ _); lia.
Qed.

Lemma settle_userPoints_le fuel now : forall s,
  userPoints s <= userPoints (settle fuel now s).
Proof.
  induction fuel as [|fuel IH]; intros s; cbn [settle]; [lia|].
  destruct (effectsIdle s); [lia|].
  pose proof (runEffects_userPoints_le now s). specialize (IH (runEffects now s)).
  lia.
Qed.

(** ** The invariants hold in every reachable state *)

Lemma find_unique_id mid l : forall found m,
  NoDup (map Mission.id l) ->
  find (fun m => Mission.id m =? mid) l = Some found ->
  In m l -> Mission.id m = mid -> m = found.
Proof.
  induction l as [|a l IH]; intros found m Hnd Hf Hin Hid; [contradiction|].
  cbn in Hnd, Hf. inversion Hnd as [|? ? Hni Hnd']; subst.
  destruct (Mission.id a =? Mission.id m) eqn:E.
  - inversion Hf; subst. destruct Hin as [->|Hin]; [reflexivity|].
    exfalso. apply Hni. apply Z.eqb_eq in E. rewrite E.
    apply in_map, Hin.
  - destruct Hin as [->|Hin]; [rewrite Z.eqb_refl in E; discriminate|].
    eapply IH; eauto.
Qed.

Lemma map_advanceIf_ids mid l :
  map Mission.id (map (advanceIf mid) l) = map Mission.id l.
Proof.
  rewrite map_map. apply map_ext. intros m. unfold advanceIf.
  destruct (_ =? _); reflexivity.
Qed.

Lemma advance_ok m :
  missionOk m -> Mission.completed m = false -> missionOk (advance m).
Proof.
  intros (Hr & Hle & Hlt) Hc. specialize (Hlt Hc).
  unfold missionOk, advance. cbn. repeat split; [exact Hr|lia|].
  intros H. apply Z.leb_gt in H. lia.
Qed.

Lemma advanceIf_ok c mid :
  NoDup (map Mission.id (missions c)) ->
  Forall missionOk (missions c) ->
  missionOpen c mid = true ->
  Forall missionOk (map (advanceIf mid) (missions c)).
Proof.
  intros Hnd Hok Hopen. unfold missionOpen in Hopen.
  destruct (find _ (missions c)) as [found|] eqn:F; [|discriminate].
  apply negb_true_iff in Hopen.
  apply Forall_forall. intros m' Hin. apply in_map_iff in Hin.
  destruct Hin as (m & <- & Hin).
  rewrite Forall_forall in Hok. specialize (Hok m Hin).
  unfold advanceIf. destruct (Mission.id m =? mid) eqn:E; [|exact Hok].
  apply Z.eqb_eq in E.
  rewrite <- (find_unique_id mid _ found m Hnd F Hin E) in Hopen.
  apply advance_ok; assumption.
Qed.

Lemma reportAgain_ok spot : hotspotOk (reportAgain spot).
Proof. reflexivity. Qed.

Lemma reportedHotspots_ok c now location :
  Forall hotspotOk (hotspots c) ->
  Forall hotspotOk (reportedHotspots c now location).
Proof.
  intros H. unfold reportedHotspots.
  destruct (find _ _) as [h|].
  - apply Forall_forall. intros x Hin. apply in_map_iff in Hin.
    destruct Hin as (spot & <- & Hin). unfold reportIf.
    destruct (_ =? _); [apply reportAgain_ok|].
    rewrite Forall_forall in H. apply H, Hin.
  - apply Forall_app. split; [exact H|]. constructor; [reflexivity|constructor].
Qed.

Lemma dispatch_frame now a s :
  hotspots (dispatch now a s) = hotspots (handle now a s) /\
  monsters (dispatch now a s) = monsters (handle now a s) /\
  missions (dispatch now a s) = missions (handle now a s).
Proof.
  unfold dispatch. cbv zeta.
  destruct (settle_frame (renders (handle now a s)) now (handle now a s))
    as (_ & -> & -> & -> & _).
  repeat split.
Qed.

Lemma Inv_initialState : Inv initialState.
Proof.
  constructor.
  - cbn. repeat constructor; discriminate.
  - cbn. repeat constructor; cbn; intros; try lia; discriminate.
  - cbn. repeat constructor; cbn; intuition discriminate.
  - cbn. repeat constructor.
  - reflexivity.
Qed.

Lemma Inv_dispatch now a s : Inv s -> Inv (dispatch now a s).
Proof.
  intros [Hmon Hmis Hids Hhot _].
  destruct (dispatch_frame now a s) as (Eh & Emo & Emi).
  constructor.
  - rewrite Emo. destruct (handle_monsters now a s) as [->|[id ->]]; [exact Hmon|].
    rewrite Forall_forall in *. intros x Hin. apply in_map_iff in Hin.
    destruct Hin as (m & <- & Hin). specialize (Hmon m Hin).
    unfold captureIf. destruct (_ =? _); exact Hmon.
  - rewrite Emi.
    destruct (handle_missions now a s) as [->|(mid & Hopen & ->)]; [exact Hmis|].
    apply advanceIf_ok; assumption.
  - rewrite Emi.
    destruct (handle_missions now a s) as [->|(mid & Hopen & ->)]; [exact Hids|].
    rewrite map_advanceIf_ids. exact Hids.
  - rewrite Eh.
    destruct (handle_hotspots now a s) as [->|(location & _ & ->)]; [exact Hhot|].
    apply reportedHotspots_ok, Hhot.
  - apply dispatch_idle.
Qed.

Lemma reachable_Inv s : reachable s -> Inv s.
Proof.
  induction 1 as [|now a s _ IH]; [apply Inv_initialState|].
  apply Inv_dispatch, IH.
Qed.

(** * The claims *)

(** C3. After every engine operation (a handler followed by the renders
    its writes set off) the level equals floor(points / 100) + 1; so does
    the level of the first render. *)
Theorem C3_level_follows_points :
  level initialState = userPoints initialState / 100 + 1 /\
  forall now a s,
    level (dispatch now a s) = userPoints (dispatch now a s) / 100 + 1.
Proof.
  split; [reflexivity|].
  intros now a s. apply (proj1 (idle_iff _)), dispatch_idle.
Qed.

(** C9. Points never decrease.  From a reachable state, the handler of any
    operation leaves the points alone or writes the render's points plus a
    non-negative amount (a monster's point value, a mission's reward, or the
    50 of a report); every render after it adds nothing or the 100 of a
    badge; so the operation as a whole does not lower the points. *)
Theorem C9_points_never_decrease s now a :
  reachable s ->
  (exists d, 0 <= d /\
     userPoints (handle now a s) = userPoints s + d /\
     (d = 0 \/
      (exists m, In m (monsters s) /\ d = Monster.points m) \/
      (exists m, In m (missions s) /\ d = Mission.reward m) \/
      d = 50)) /\
  (forall c, userPoints (runEffects now c) = userPoints c \/
             userPoints (runEffects now c) = userPoints c + 100) /\
  userPoints s <= userPoints (dispatch now a s).
Proof.
  intros Hr. apply reachable_Inv in Hr. destruct Hr as [Hmon Hmis _ _ _].
  rewrite Forall_forall in Hmon, Hmis.
  assert (H1 : exists d, 0 <= d /\
     userPoints (handle now a s) = userPoints s + d /\
     (d = 0 \/
      (exists m, In m (monsters s) /\ d = Monster.points m) \/
      (exists m, In m (missions s) /\ d = Mission.reward m) \/
      d = 50)).
  { destruct (handle_userPoints now a s) as [H|[(m & Hin & H)|[(m & Hin & H)|H]]].
    - exists 0. repeat split; [lia|lia|auto].
    - exists (Monster.points m). repeat split; [apply Hmon, Hin|exact H|].
      right; left. eauto.
    - exists (Mission.reward m). repeat split; [apply Hmis, Hin|exact H|].
      right; right; left. eauto.
    - exists 50. repeat split; [lia|exact H|auto]. }
  split; [exact H1|]. split.
  - intros c. rewrite runEffects_userPoints. destruct (existsb _ _); auto.
  - destruct H1 as (d & Hd & E & _). unfold dispatch. cbv zeta.
    pose proof (settle_userPoints_le (renders (handle now a s)) now (handle now a s)).
    lia.
Qed.

Lemma C9_points_never_decrease_witness :
  reachable initialState /\
  userPoints initialState <= userPoints (dispatch 0 (Capture 4) initialState).
Proof.
  split; [constructor|].
  apply (C9_points_never_decrease initialState 0 (Capture 4)). constructor.
Defined.

(** C10. Mission progress never exceeds the total.  The seed missions start
    below their totals; in every reachable state each mission has
    progress <= total; an operation leaves a mission as it is or, only when
    it is not completed, adds exactly 1 to its progress and marks it
    completed when the new progress reaches the total.  Badge progress is not
    bounded this way: some reachable state has a badge above its total. *)
Theorem C10_mission_progress_bounded s now a :
  reachable s ->
  Forall (fun m => Mission.progress m < Mission.total m) seedMissions /\
  Forall (fun m => Mission.progress m <= Mission.total m) (missions s) /\
  Forall2
    (fun m m' =>
       m' = m \/
       (Mission.completed m = false /\
        Mission.progress m' = Mission.progress m + 1 /\
        Mission.completed m' = (Mission.total m <=? Mission.progress m + 1) /\
        Mission.total m' = Mission.total m /\
        Mission.id m' = Mission.id m))
    (missions s) (missions (dispatch now a s)) /\
  Forall (fun m => Mission.progress m <= Mission.total m)
    (missions (dispatch now a s)) /\
  (exists s', reachable s' /\
     Exists (fun b => Badge.total b < Badge.progress b) (badges s')).
Proof.
  intros Hr. pose proof (reachable_Inv _ Hr) as [_ Hmis Hids _ _].
  pose proof (reachable_Inv _ (reachable_dispatch now a s Hr)) as [_ Hmis' _ _ _].
  assert (Hle : forall l, Forall missionOk l ->
                  Forall (fun m => Mission.progress m <= Mission.total m) l).
  { intros l. apply Forall_impl. intros m (_ & H & _). exact H. }
  split; [repeat constructor|]. split; [apply Hle, Hmis|]. split; [|split].
  - destruct (dispatch_frame now a s) as (_ & _ & ->).
    destruct (handle_missions now a s) as [->|(mid & Hopen & ->)].
    + clear. induction (missions s); constructor; auto.
    + unfold missionOpen in Hopen.
      destruct (find _ (missions s)) as [found|] eqn:F; [|discriminate].
      apply negb_true_iff in Hopen.
      assert (K : forall m, In m (missions s) -> Mission.id m = mid ->
                            Mission.completed m = false).
      { intros m Hin Hid.
        rewrite (find_unique_id mid _ found m Hids F Hin Hid). exact Hopen. }
      clear F Hopen Hmis Hmis' Hids Hr. revert K.
      induction (missions s) as [|m l IH]; intros K; cbn [map]; constructor.
      * unfold advanceIf. destruct (Mission.id m =? mid) eqn:E; [|left; reflexivity].
        right. apply Z.eqb_eq in E. repeat split.
        apply K; [left; reflexivity|exact E].
      * apply IH. intros m0 Hin. apply K. right. exact Hin.
  - apply Hle, Hmis'.
  - exists (dispatch 0 (Report (mkLocation 0 0))
              (dispatch 0 (Report (mkLocation 0 0))
                 (dispatch 0 (Report (mkLocation 0 0)) initialState))).
    split; [repeat constructor|].
    lazy. repeat (first [ left; reflexivity | right ]).
Qed.

Lemma C10_mission_progress_bounded_witness :
  reachable initialState /\
  Forall (fun m => Mission.progress m <= Mission.total m)
    (missions (dispatch 0 Invite initialState)).
Proof.
  split; [constructor|].
  apply (C10_mission_progress_bounded initialState 0 Invite). constructor.
Defined.

Lemma Rltb_true x y : Rltb x y = true <-> (x < y)%R.
Proof.
  unfold Rltb. destruct (Rlt_dec x y); split; auto; discriminate.
Qed.


Lemma levelOf_table n :
  (10 < n -> levelOf n = high) /\
  (5 < n <= 10 -> levelOf n = medium) /\
  (n <= 5 -> levelOf n = low).
Proof.
  unfold levelOf. repeat split; intros H.
  - apply Z.ltb_lt in H. rewrite H. reflexivity.
  - destruct H as [H5 H10]. apply Z.ltb_lt in H5. rewrite H5.
    destruct (10 <? n) eqn:E; [apply Z.ltb_lt in E; lia|reflexivity].
  - destruct (10 <? n) eqn:E; [apply Z.ltb_lt in E; lia|].
    destruct (5 <? n) eqn:E'; [apply Z.ltb_lt in E'; lia|reflexivity].
Qed.

Lemma reportedHotspots_ids c now location :
  exists extra,
    map Hotspot.id (reportedHotspots c now location) =
    map Hotspot.id (hotspots c) ++ extra.
Proof.
  unfold reportedHotspots. destruct (find _ _) as [h|].
  - exists []. rewrite app_nil_r, map_map. apply map_ext.
    intros spot. unfold reportIf. destruct (_ =? _); reflexivity.
  - exists [now]. rewrite map_app. reflexivity.
Qed.

(** C6. In every reachable state each hotspot's severity follows its report
    count (high above 10, medium above 5, low otherwise).  No operation
    deletes a hotspot.  A report strictly within 0.1 km of a stored hotspot
    lands on the first such hotspot: its report count grows by exactly 1 and
    its severity is recomputed from the table (from 10 reports and medium to
    11 and high); a report with no hotspot within 0.1 km appends a hotspot
    with report count 1 and severity low. *)
Theorem C6_hotspot_severity s now a location :
  reachable s ->
  Forall
    (fun spot =>
       (10 < Hotspot.reportCount spot -> Hotspot.level spot = high) /\
       (5 < Hotspot.reportCount spot <= 10 -> Hotspot.level spot = medium) /\
       (Hotspot.reportCount spot <= 5 -> Hotspot.level spot = low))
    (hotspots s) /\
  (exists extra,
     map Hotspot.id (hotspots (dispatch now a s)) =
     map Hotspot.id (hotspots s) ++ extra) /\
  (forall spot,
     withinRadius location spot = true <->
     (calculateDistance (Hotspot.lat spot) (Hotspot.lng spot)
        (lat location) (lng location) < 1 / 10)%R) /\
  match find (withinRadius location) (hotspots s) with
  | Some existing =>
      In existing (hotspots s) /\
      hotspots (dispatch now (Report location) s) =
      map (fun spot =>
             if Hotspot.id spot =? Hotspot.id existing
             then reportAgain spot else spot)
          (hotspots s) /\
      In (reportAgain existing) (hotspots (dispatch now (Report location) s)) /\
      Hotspot.reportCount (reportAgain existing) =
      Hotspot.reportCount existing + 1 /\
      Hotspot.level (reportAgain existing) =
      levelOf (Hotspot.reportCount existing + 1) /\
      (Hotspot.reportCount existing = 10 ->
       Hotspot.level existing = medium /\
       Hotspot.reportCount (reportAgain existing) = 11 /\
       Hotspot.level (reportAgain existing) = high)
  | None =>
      exists fresh,
        hotspots (dispatch now (Report location) s) = hotspots s ++ [fresh] /\
        Hotspot.reportCount fresh = 1 /\ Hotspot.level fresh = low /\
        Hotspot.lat fresh = lat location /\ Hotspot.lng fresh = lng location
  end.
Proof.
  intros Hr. pose proof (reachable_Inv _ Hr) as [_ _ _ Hhot _].
  split; [|split; [|split]].
  - eapply Forall_impl; [|exact Hhot]. intros spot H. unfold hotspotOk in H.
    rewrite H. apply levelOf_table.
  - destruct (dispatch_frame now a s) as (-> & _ & _).
    destruct (handle_hotspots now a s) as [->|(loc & _ & ->)].
    + exists []. rewrite app_nil_r. reflexivity.
    + apply reportedHotspots_ids.
  - intros spot. apply Rltb_true.
  - destruct (dispatch_frame now (Report location) s) as (-> & _ & _).
    assert (E : hotspots (handle now (Report location) s) =
                reportedHotspots s now location).
    { destruct (handle_hotspots now (Report location) s) as [H|(loc & Hloc & H)].
      - cbv beta iota delta [handle run]. rewrite reportIllegalDumping_run.
        cbn. rewrite (proj1 (proj2 (proj2 (afterMission_frame _ _ _ _)))).
        reflexivity.
      - inversion Hloc; subst. exact H. }
    rewrite E. unfold reportedHotspots.
    destruct (find (withinRadius location) (hotspots s)) as [h|] eqn:F.
    + pose proof (find_some _ _ F) as [Hin _].
      split; [exact Hin|]. split; [reflexivity|]. split.
      * apply in_map_iff. exists h. split; [|exact Hin].
        unfold reportIf. rewrite Z.eqb_refl. reflexivity.
      * split; [reflexivity|]. split; [reflexivity|].
        intros H10. rewrite Forall_forall in Hhot. specialize (Hhot h Hin).
        unfold hotspotOk in Hhot. rewrite Hhot. cbn. rewrite H10.
        repeat split.
    + exists (newHotspot now location). repeat split.
Qed.

Lemma C6_hotspot_severity_witness :
  reachable initialState /\
  exists extra,
    map Hotspot.id (hotspots (dispatch 0 Invite initialState)) =
    map Hotspot.id (hotspots initialState) ++ extra.
Proof.
  split; [constructor|].
  apply (C6_hotspot_severity initialState 0 Invite (mkLocation 0 0)).
  constructor.
Defined.

(** ** Geometry *)

Lemma deg2rad_quarter x :
  (-90 <= x <= 90)%R -> (- (PI / 2) <= deg2rad x <= PI / 2)%R.
Proof.
  intros [Hl Hu]. unfold deg2rad. pose proof PI_RGT_0 as Hpi.
  split; nra.
Qed.

Lemma hav_range lat1 lat2 dLng :
  (-90 <= lat1 <= 90)%R -> (-90 <= lat2 <= 90)%R ->
  (0 <= hav (deg2rad (lat2 - lat1)) +
        cos (deg2rad lat1) * cos (deg2rad lat2) * hav dLng <= 1)%R.
Proof.
  intros H1 H2.
  apply deg2rad_quarter in H1, H2.
  pose proof (cos_ge_0 _ (proj1 H1) (proj2 H1)) as C1.
  pose proof (cos_ge_0 _ (proj1 H2) (proj2 H2)) as C2.
  replace (deg2rad (lat2 - lat1)) with (deg2rad lat2 - deg2rad lat1)%R
    by (unfold deg2rad; field).
  set (x := deg2rad lat1) in *. set (y := deg2rad lat2) in *.
  unfold hav.
  pose proof (Rle_0_sqr (sin ((y - x) / 2))) as S0.
  pose proof (Rle_0_sqr (sin (dLng / 2))) as T0.
  assert (T1 : (Rsqr (sin (dLng / 2)) <= 1)%R).
  { pose proof (sin2_cos2 (dLng / 2)). pose proof (Rle_0_sqr (cos (dLng / 2))). lra. }
  assert (E : (Rsqr (sin ((y - x) / 2)) =
               (1 - cos y * cos x - sin y * sin x) / 2)%R).
  { pose proof (cos_2a_sin ((y - x) / 2)) as H.
    replace (2 * ((y - x) / 2))%R with (y - x)%R in H by field.
    rewrite cos_minus in H. unfold Rsqr. lra. }
  pose proof (COS_bound (x + y)) as [_ B]. rewrite cos_plus in B.
  split.
  - pose proof (Rmult_le_pos _ _ C1 C2).
    pose proof (Rmult_le_pos _ _ H T0). lra.
  - rewrite E.
    assert (cos x * cos y * Rsqr (sin (dLng / 2)) <= cos x * cos y)%R.
    { pose proof (Rmult_le_pos _ _ C1 C2). nra. }
    lra.
Qed.

Lemma atan2_sqrt_asin a :
  (0 <= a <= 1)%R -> Math_atan2 (sqrt a) (sqrt (1 - a)) = asin (sqrt a).
Proof.
  intros [H0 H1]. unfold Math_atan2.
  destruct (Rlt_dec 0 (sqrt (1 - a))) as [Hp|Hn].
  - assert (Ha : (a < 1)%R).
    { destruct (Rle_lt_dec 1 a) as [Hge|]; [|assumption].
      replace a with 1%R in Hp by lra.
      replace (1 - 1)%R with 0%R in Hp by ring. rewrite sqrt_0 in Hp. lra. }
    assert (Hs : (sqrt a < 1)%R).
    { rewrite <- sqrt_1. apply sqrt_lt_1; lra. }
    pose proof (sqrt_pos a).
    rewrite asin_atan by lra. rewrite Rsqr_sqrt by assumption. reflexivity.
  - assert (Ha : a = 1%R).
    { destruct (Rle_lt_dec 1 a) as [Hge|Hlt]; [lra|].
      exfalso. apply Hn. apply sqrt_lt_R0. lra. }
    subst a. replace (1 - 1)%R with 0%R by ring. rewrite sqrt_0, sqrt_1.
    destruct (Rlt_dec 0 0); [lra|]. destruct (Rlt_dec 0 1); [|lra].
    symmetry. apply asin_1.
Qed.

Lemma asin_le x y : (0 <= x <= y)%R -> (y <= 1)%R -> (asin x <= asin y)%R.
Proof.
  intros [H0 Hxy] H1.
  destruct (Rle_lt_dec (asin x) (asin y)) as [H|H]; [exact H|exfalso].
  pose proof (asin_bound x) as [Bx1 Bx2].
  pose proof (asin_bound y) as [By1 By2].
  assert (K : (sin (asin y) < sin (asin x))%R)
    by (apply sin_increasing_1; assumption).
  rewrite !sin_asin in K by lra. lra.
Qed.


Lemma radians_deg2rad x : radians x = deg2rad x.
Proof. unfold radians, deg2rad. field. Qed.

Lemma haversineDistance_deg2rad lat1 lng1 lat2 lng2 :
  haversineDistance lat1 lng1 lat2 lng2 =
  (2 * 6371 *
   asin (sqrt (hav (deg2rad (lat2 - lat1)) +
               cos (deg2rad lat1) * cos (deg2rad lat2) *
               hav (deg2rad (lng2 - lng1)))))%R.
Proof.
  unfold haversineDistance. cbv zeta. rewrite !radians_deg2rad.
  replace (deg2rad lat2 - deg2rad lat1)%R with (deg2rad (lat2 - lat1))
    by (unfold deg2rad; ring).
  replace (deg2rad lng2 - deg2rad lng1)%R with (deg2rad (lng2 - lng1))
    by (unfold deg2rad; ring).
  reflexivity.
Qed.

(** On latitudes between -90 and 90 degrees the source computes the
    haversine distance. *)
Lemma calculateDistance_haversine lat1 lng1 lat2 lng2 :
  (-90 <= lat1 <= 90)%R -> (-90 <= lat2 <= 90)%R ->
  calculateDistance lat1 lng1 lat2 lng2 = haversineDistance lat1 lng1 lat2 lng2.
Proof.
  intros H1 H2. rewrite haversineDistance_deg2rad.
  unfold calculateDistance. cbv zeta.
  pose proof (hav_range lat1 lat2 (deg2rad (lng2 - lng1)) H1 H2) as Hr.
  replace (sin (deg2rad (lat2 - lat1) / 2) * sin (deg2rad (lat2 - lat1) / 2) +
           cos (deg2rad lat1) * cos (deg2rad lat2) *
           sin (deg2rad (lng2 - lng1) / 2) * sin (deg2rad (lng2 - lng1) / 2))%R
    with (hav (deg2rad (lat2 - lat1)) +
          cos (deg2rad lat1) * cos (deg2rad lat2) * hav (deg2rad (lng2 - lng1)))%R
    by (unfold hav, Rsqr; ring).
  rewrite atan2_sqrt_asin by exact Hr. ring.
Qed.


Lemma calculateDistance_same lat1 lng1 :
  calculateDistance lat1 lng1 lat1 lng1 = 0%R.
Proof.
  unfold calculateDistance, deg2rad. cbv zeta.
  replace ((lat1 - lat1) * (PI / 180) / 2)%R with 0%R by field.
  replace ((lng1 - lng1) * (PI / 180) / 2)%R with 0%R by field.
  rewrite sin_0.
  replace (0 * 0 + cos (lat1 * (PI / 180)) * cos (lat1 * (PI / 180)) * 0 * 0)%R
    with 0%R by ring.
  replace (1 - 0)%R with 1%R by ring. rewrite sqrt_0, sqrt_1.
  unfold Math_atan2. destruct (Rlt_dec 0 1); [|lra].
  replace (0 / 1)%R with 0%R by field. rewrite atan_0. ring.
Qed.



(** ** Environment score *)

Lemma hotspotSeverity_fold l : forall acc,
  fold_left
    (fun total spot =>
       if Severity_eqb (Hotspot.level spot) high then total + 3
       else if Severity_eqb (Hotspot.level spot) medium then total + 2
       else total + 1)
    l acc = acc + specSeverity l.
Proof.
  induction l as [|spot l IH]; intros acc; cbn [fold_left].
  - unfold specSeverity. cbn. lia.
  - rewrite IH. unfold specSeverity. cbn [map fold_right].
    destruct (Hotspot.level spot); cbn [Severity_eqb severityWeight]; lia.
Qed.

Lemma hotspotSeverity_spec l : hotspotSeverity l = specSeverity l.
Proof. unfold hotspotSeverity. rewrite hotspotSeverity_fold. lia. Qed.

Lemma specSeverity_nonneg l : 0 <= specSeverity l.
Proof.
  unfold specSeverity. induction l as [|spot l IH]; cbn [map fold_right]; [lia|].
  destruct (Hotspot.level spot); cbn [severityWeight]; lia.
Qed.

Lemma captureRate_spec monsters :
  (if 0 <? Z.of_nat (List.length monsters)
   then (inject_Z (Z.of_nat (List.length (filter Monster.captured monsters))) /
         inject_Z (Z.of_nat (List.length monsters)))%Q
   else 0%Q) = specCaptureRate monsters.
Proof. destruct monsters; reflexivity. Qed.

Lemma specCaptureRate_range monsters :
  (0 <= specCaptureRate monsters <= 1)%Q.
Proof.
  unfold specCaptureRate. destruct monsters as [|m l]; [split; discriminate|].
  set (c := Z.of_nat (List.length (filter Monster.captured (m :: l)))).
  set (t := Z.of_nat (List.length (m :: l))).
  assert (Hc : 0 <= c) by apply Nat2Z.is_nonneg.
  assert (Hct : c <= t).
  { apply inj_le, filter_length_le. }
  assert (Ht : 0 < t) by (unfold t; cbn [List.length]; lia).
  assert (Ht' : (0 < inject_Z t)%Q).
  { replace 0%Q with (inject_Z 0) by reflexivity. rewrite <- Zlt_Qlt. exact Ht. }
  split.
  - apply Qle_shift_div_l; [exact Ht'|]. rewrite Qmult_0_l.
    replace 0%Q with (inject_Z 0) by reflexivity. rewrite <- Zle_Qle. exact Hc.
  - apply Qle_shift_div_r; [exact Ht'|]. rewrite Qmult_1_l.
    rewrite <- Zle_Qle. exact Hct.
Qed.

Lemma calculateEnvironmentScore_spec hs ms :
  calculateEnvironmentScore hs ms = specScore hs ms.
Proof.
  unfold calculateEnvironmentScore, specScore. cbv zeta.
  rewrite captureRate_spec, hotspotSeverity_spec. reflexivity.
Qed.

Lemma score_le_100 hs ms : calculateEnvironmentScore hs ms <= 100.
Proof.
  rewrite calculateEnvironmentScore_spec. unfold specScore, Math_round.
  pose proof (specSeverity_nonneg hs) as Hs.
  pose proof (specCaptureRate_range ms) as [_ Hr].
  assert (Hq : (0 <= inject_Z (specSeverity hs))%Q).
  { replace 0%Q with (inject_Z 0) by reflexivity. rewrite <- Zle_Qle. exact Hs. }
  apply Z.le_trans with (m := Qfloor (100 + (1 # 2))); [|discriminate].
  apply Qfloor_resp_le. lra.
Qed.

(** C8 as stated fails: no hotspots and no monsters make the score exceed
    100. *)
Lemma C8_score_never_exceeds_100 :
  ~ exists hs ms, 100 < calculateEnvironmentScore hs ms.
Proof.
  intros (hs & ms & H). pose proof (score_le_100 hs ms). lia.
Qed.

(** C8, amended.  The environment score is a function of the current
    hotspots and monsters:
    round((100 - hotspotSeverity * 5) * 0.6 + captureRate * 100 * 0.4), with
    hotspotSeverity the sum of 3 per high, 2 per medium and 1 per low hotspot
    and captureRate the captured share of the monsters, 0 when there are
    none.  Nothing clamps it: it is negative for enough hotspots; but it
    never exceeds 100, a value it reaches without hotspots when every monster
    is captured. *)
Theorem C8_environment_score hs ms :
  calculateEnvironmentScore hs ms = specScore hs ms /\
  calculateEnvironmentScore hs [] =
    Math_round ((100 - inject_Z (specSeverity hs) * 5) * (6 # 10))%Q /\
  calculateEnvironmentScore hs ms <= 100 /\
  calculateEnvironmentScore [] (map setCaptured seedMonsters) = 100 /\
  calculateEnvironmentScore
    (repeat (Hotspot.mk 0 (Named "") high "" 0 0 11) 21) seedMonsters = -122.
Proof.
  split; [apply calculateEnvironmentScore_spec|].
  split.
  { rewrite calculateEnvironmentScore_spec. unfold specScore, Math_round.
    apply Qfloor_comp. cbn [specCaptureRate]. ring. }
  split; [apply score_le_100|].
  split; reflexivity.
Qed.

(** ** Reports *)

(** C5 as stated fails: once the report mission is completed a further
    report leaves its progress where it was. *)
Lemma C5_completed_mission_not_incremented :
  let s := dispatch 0 (Report defaultLocation) initialState in
  let s' := snd (reportIllegalDumping s 1 defaultLocation s) in
  map Mission.id (missions s) = [1; 2; 3; 4] /\
  map Mission.completed (missions s) = [false; true; false; false] /\
  map Mission.progress (missions s) = [1; 1; 1; 0] /\
  map Mission.progress (missions s') = [1; 1; 1; 0].
Proof. lazy. repeat split. Qed.

(** C5, amended.  [reportIllegalDumping] has no failing path and returns
    true.  Whether it lands on a stored hotspot or appends one, it raises the
    progress of every badge with id 2 ("environmental guardian") by 1
    whether or not the badge is unlocked, puts the report confirmation at the
    head of the notifications, and the operation leaves at least 50 points
    more than it found.  The progress of the mission with id 2 is raised by
    1 only while that mission is not completed, and it is then marked
    completed when the new progress reaches its total.  Unless this very
    call completes the report mission, the points it leaves are exactly the
    render's points plus 50 and the report confirmation is the only
    notification it adds. *)
Theorem C5_report c now location :
  let r := reportIllegalDumping c now location c in
  fst r = true /\
  badges (snd r) = map (addBadgeProgress 2) (badges c) /\
  (forall b, Badge.id b = 2 ->
     Badge.progress (addBadgeProgress 2 b) = Badge.progress b + 1 /\
     Badge.unlocked (addBadgeProgress 2 b) = Badge.unlocked b) /\
  hd_error (notifications (snd r)) = Some (notify (now + 1) MsgReportDone) /\
  userPoints c + 50 <= userPoints (dispatch now (Report location) c) /\
  missions (snd r) =
    (if missionOpen c 2 then map (advanceIf 2) (missions c) else missions c) /\
  (forall m, Mission.id m = 2 ->
     Mission.progress (advanceIf 2 m) = Mission.progress m + 1 /\
     Mission.completed (advanceIf 2 m) =
     (Mission.total m <=? Mission.progress m + 1)) /\
  hotspots (snd r) =
    match find (withinRadius location) (hotspots c) with
    | Some existing => map (reportIf (Hotspot.id existing)) (hotspots c)
    | None => hotspots c ++ [newHotspot now location]
    end /\
  (existsb (crosses 2) (missions c) = false ->
   userPoints (snd r) = userPoints c + 50 /\
   notifications (snd r) = notify (now + 1) MsgReportDone :: notifications c).
Proof.
  cbv zeta. rewrite reportIllegalDumping_run. cbn [fst snd].
  pose proof (afterMission_frame c 2 now
                (with_hotspots (reportedHotspots c now location) c))
    as (_ & _ & Eh & _ & _ & _).
  split; [reflexivity|]. split; [reflexivity|]. split.
  { intros b Hb. unfold addBadgeProgress. rewrite Hb. split; reflexivity. }
  split; [reflexivity|]. split.
  { unfold dispatch. cbv zeta.
    pose proof (settle_userPoints_le
                  (renders (handle now (Report location) c)) now
                  (handle now (Report location) c)) as H.
    replace (userPoints (handle now (Report location) c))
      with (userPoints c + 50) in H; [exact H|].
    cbv beta iota delta [handle run]. rewrite reportIllegalDumping_run.
    reflexivity. }
  split.
  { cbn. rewrite afterMission_missions. reflexivity. }
  split.
  { intros m Hm. unfold advanceIf. rewrite Hm. split; reflexivity. }
  split; [cbn; exact Eh|].
  intros _. split; reflexivity.
Qed.

(** ** Captures *)

(** C1 as stated fails: monster 3 of the seed data is already captured, and
    [captureMonster 3] awards its 30 points again and notifies again. *)
Lemma C1_recapture_grants_again :
  map Monster.captured (monsters initialState) =
    [false; false; true; false; false; false] /\
  userPoints initialState = 750 /\
  userPoints (dispatch 0 (Capture 3) initialState) = 780 /\
  map Notification.message (notifications (dispatch 0 (Capture 3) initialState)) =
    MsgCaptured "종이 고스트" 30
    :: map Notification.message (notifications initialState).
Proof. lazy. repeat split. Qed.

Lemma captureIf_keeps id m :
  Monster.id (captureIf id m) = Monster.id m /\
  Monster.points (captureIf id m) = Monster.points m /\
  (Monster.captured m = true -> Monster.captured (captureIf id m) = true).
Proof.
  unfold captureIf. destruct (_ =? _); repeat split; auto.
Qed.

Lemma capture_unknown_id now id s :
  find (fun m => Monster.id m =? id) (monsters s) = None ->
  handle now (Capture id) s = s.
Proof.
  intros F. cbv beta iota delta [handle run]. rewrite captureMonster_run.
  cbv zeta. rewrite F, (map_captureIf_absent _ _ F).
  destruct s; reflexivity.
Qed.

(** C1, amended.  Under every operation a monster keeps its id and point
    value and a captured flag that is true stays true, so the flag goes from
    false to true at most once.  [captureMonster] on an id no monster has
    changes nothing at all and cannot fail.  [captureMonster] does not test
    the flag itself (the camera screen offers only monsters that are not yet
    captured): called on the id of a stored monster, captured or not, it sets
    the flag and, unless this very call completes the plastic mission, adds
    exactly that monster's point value to the points. *)
Theorem C1_capture s now id a :
  Forall2
    (fun m m' =>
       Monster.id m' = Monster.id m /\
       Monster.points m' = Monster.points m /\
       (Monster.captured m = true -> Monster.captured m' = true))
    (monsters s) (monsters (dispatch now a s)) /\
  monsters (dispatch now (Capture id) s) =
    map (fun m => if Monster.id m =? id then setCaptured m else m) (monsters s) /\
  (find (fun m => Monster.id m =? id) (monsters s) = None ->
   handle now (Capture id) s = s /\
   (effectsIdle s = true -> dispatch now (Capture id) s = s)) /\
  (forall m,
     find (fun m => Monster.id m =? id) (monsters s) = Some m ->
     Monster.type m <> plastic \/ existsb (crosses 1) (missions s) = false ->
     userPoints (handle now (Capture id) s) = userPoints s + Monster.points m).
Proof.
  split; [|split; [|split]].
  - destruct (dispatch_frame now a s) as (_ & -> & _).
    destruct (handle_monsters now a s) as [->|[id' ->]].
    + induction (monsters s); constructor; auto.
    + induction (monsters s) as [|m l IH]; cbn [map]; constructor;
        [apply captureIf_keeps|exact IH].
  - destruct (dispatch_frame now (Capture id) s) as (_ & -> & _).
    cbv beta iota delta [handle run]. rewrite captureMonster_run. cbv zeta.
    destruct (find _ _) as [cm|]; [|reflexivity].
    destruct (WasteType_eqb _ _); [|reflexivity].
    rewrite (proj1 (proj2 (proj2 (proj2 (afterMission_frame _ _ _ _))))).
    reflexivity.
  - intros F. pose proof (capture_unknown_id now id s F) as E.
    split; [exact E|]. intros Hi. unfold dispatch. cbv zeta. rewrite E.
    apply settle_of_idle, Hi.
  - intros m F Hcase.
    cbv beta iota delta [handle run]. rewrite captureMonster_run. cbv zeta.
    rewrite F.
    destruct (WasteType_eqb (Monster.type m) plastic) eqn:Ty; [|reflexivity].
    destruct Hcase as [Hne|Hq].
    + exfalso. apply Hne. destruct (Monster.type m); try discriminate. reflexivity.
    + rewrite (proj1 (afterMission_quiet s 1 (now + 1) _ Hq)). reflexivity.
Qed.

Lemma C1_capture_witness :
  find (fun m => Monster.id m =? 99) (monsters initialState) = None /\
  handle 0 (Capture 99) initialState = initialState /\
  dispatch 0 (Capture 99) initialState = initialState /\
  userPoints (handle 0 (Capture 4) initialState) = 750 + 60.
Proof.
  pose proof (C1_capture initialState 0 99 Invite) as (_ & _ & H & _).
  pose proof (C1_capture initialState 0 4 Invite) as (_ & _ & _ & K).
  split; [reflexivity|].
  destruct (H eq_refl) as [H1 H2].
  split; [exact H1|]. split; [apply H2; reflexivity|].
  apply (K (Monster.mk 4 "캔 골렘" metal 60 false 37.6022 127.0155 uncommon));
    [reflexivity|left; discriminate].
Defined.

Lemma C5_report_witness :
  let s := dispatch 0 (Report defaultLocation) initialState in
  existsb (crosses 2) (missions s) = false /\
  fst (reportIllegalDumping s 1 defaultLocation s) = true /\
  userPoints (snd (reportIllegalDumping s 1 defaultLocation s)) =
    userPoints s + 50 /\
  notifications (snd (reportIllegalDumping s 1 defaultLocation s)) =
    notify 2 MsgReportDone :: notifications s.
Proof.
  cbv zeta.
  pose proof (C5_report (dispatch 0 (Report defaultLocation) initialState)
                1 defaultLocation) as H.
  cbv zeta in H. destruct H as (H1 & _ & _ & _ & _ & _ & _ & _ & H2).
  assert (Q : existsb (crosses 2)
                (missions (dispatch 0 (Report defaultLocation) initialState)) =
              false) by (lazy; reflexivity).
  split; [exact Q|]. split; [exact H1|]. exact (H2 Q).
Defined.

(** ** Crossings *)

(** C2 on the seed data.  The first report completes the report mission
    (progress 0 of 1, reward 100), yet the handler leaves 750 + 50 points and
    no completion notification: the reward and the notification it wrote are
    overwritten by the report's own writes.  The capture handler keeps the
    reward of the plastic mission it completes (and overwrites the monster's
    own 70 points and the capture notification instead). *)
Theorem C2_report_drops_mission_reward :
  let s := handle 0 (Report defaultLocation) initialState in
  let c1 := dispatch 0 (Capture 1) initialState in
  let c2 := handle 0 (Capture 2) c1 in
  map Mission.completed (missions initialState) = [false; false; false; false] /\
  map Mission.reward (missions initialState) = [150; 100; 300; 250] /\
  map Mission.completed (missions s) = [false; true; false; false] /\
  userPoints initialState = 750 /\
  userPoints s = 800 /\
  map Notification.message (notifications s) =
    MsgReportDone :: map Notification.message (notifications initialState) /\
  map Mission.completed (missions c1) = [false; false; false; false] /\
  map Mission.completed (missions c2) = [true; false; false; false] /\
  userPoints c1 = 800 /\
  userPoints c2 = 800 + 150 /\
  map Notification.message (notifications c2) =
    MsgMissionComplete "플라스틱 몬스터 3마리 포획하기" 150
    :: map Notification.message (notifications c1).
Proof. lazy. repeat split. Qed.

(** ** Level-ups *)

(** A level-up on a render without an unlockable badge: one notification is
    added and the progress of the badge with id 5 is overwritten. *)
Lemma runEffects_level_up now c :
  existsb unlockable (badges c) = false ->
  level c < userPoints c / 100 + 1 ->
  level (runEffects now c) = userPoints c / 100 + 1 /\
  notifications (runEffects now c) =
    notify now (MsgLevelUp (userPoints c / 100 + 1)) :: notifications c /\
  badges (runEffects now c) =
    map (heroProgress (userPoints c / 100 + 1)) (badges c) /\
  userPoints (runEffects now c) = userPoints c.
Proof.
  intros Hu Hl.
  rewrite runEffects_level, runEffects_badges, runEffects_userPoints, Hu.
  rewrite runEffects_eq, badgeEffect_run, levelEffect_run, Hu. cbv zeta.
  assert (E1 : (userPoints c / 100 + 1 =? level c) = false)
    by (apply Z.eqb_neq; lia).
  assert (E2 : (level c <? userPoints c / 100 + 1) = true)
    by (apply Z.ltb_lt; lia).
  rewrite E1, E2. repeat split.
Qed.

(** C4 on a state reached from the seed data (report, capture monster 1,
    report).  The second report brings the points from 850 to 900, so the
    level rises from 9 to 10, and it also brings the badge with id 2 to its
    total.  Both effects run on that render; the badge effect's writes to the
    notifications and the badges overwrite those of the level effect.  The
    level becomes 10 without a level-up notification for it, and the progress
    of the badge with id 5 stays 9 on that render. *)
Theorem C4_level_up_notification_lost :
  let s2 :=
    dispatch 0 (Capture 1) (dispatch 0 (Report defaultLocation) initialState) in
  let h := handle 0 (Report defaultLocation) s2 in
  let r := runEffects 0 h in
  userPoints s2 = 850 /\ level s2 = 9 /\
  userPoints h = 900 /\ level h = 9 /\
  level r = 10 /\
  map Notification.message (notifications r) =
    MsgBadgeUnlocked "환경 지킴이" :: map Notification.message (notifications h) /\
  map (fun b => (Badge.id b, Badge.progress b)) (badges r) =
    [(1, 5); (2, 5); (3, 12); (4, 7); (5, 9)] /\
  level (dispatch 0 (Report defaultLocation) s2) = 12 /\
  ~ In (MsgLevelUp 10)
      (map Notification.message
         (notifications (dispatch 0 (Report defaultLocation) s2))).
Proof.
  lazy. repeat split. intros H.
  repeat (destruct H as [H|H]; [discriminate|]). exact H.
Qed.

(** The scenario of the level effect: a render that finds 100 points at
    level 1 (the points have just crossed from 99) and no unlockable badge
    moves to level 2, adds the level-up notification and sets the progress of
    the badge with id 5 to 2. *)
Corollary level_up_at_100_points now c :
  userPoints c = 100 -> level c = 1 ->
  existsb unlockable (badges c) = false ->
  level (runEffects now c) = 2 /\
  notifications (runEffects now c) =
    notify now (MsgLevelUp 2) :: notifications c /\
  Forall (fun b => Badge.id b = 5 -> Badge.progress b = 2)
    (badges (runEffects now c)).
Proof.
  intros Hp Hl Hu.
  destruct (runEffects_level_up now c Hu) as (E1 & E2 & E3 & _).
  { rewrite Hp, Hl. reflexivity. }
  rewrite Hp in E1, E2, E3. change (100 / 100 + 1) with 2 in *.
  split; [exact E1|]. split; [exact E2|].
  rewrite E3. apply Forall_forall. intros b' Hin. apply in_map_iff in Hin.
  destruct Hin as (b & <- & _). unfold heroProgress.
  destruct (Badge.id b =? 5) eqn:E; [reflexivity|].
  intros H. apply Z.eqb_neq in E. contradiction.
Qed.

(** A report at the coordinates of the first seed hotspot lands on it. *)
Example report_lands_on_first_seed_hotspot :
  option_map Hotspot.id
    (find (withinRadius defaultLocation) (hotspots initialState)) = Some 1 /\
  map Hotspot.reportCount
    (hotspots (dispatch 0 (Report defaultLocation) initialState)) =
  [13; 8; 3; 7] /\
  map Hotspot.level
    (hotspots (dispatch 0 (Report defaultLocation) initialState)) =
  [high; medium; low; medium].
Proof.
  assert (F : find (withinRadius defaultLocation) (hotspots initialState) =
              Some (Hotspot.mk 1 (Named "배밭골 원룸촌 입구") high "10분 전"
                      37.602 127.015 12)).
  { cbn [hotspots initialState seedHotspots find].
    replace (withinRadius defaultLocation _) with true; [reflexivity|].
    symmetry. apply Rltb_true.
    cbn [Hotspot.lat Hotspot.lng lat lng defaultLocation].
    rewrite calculateDistance_same. lra. }
  split; [rewrite F; reflexivity|].
  destruct (dispatch_frame 0 (Report defaultLocation) initialState) as (-> & _ & _).
  cbv beta iota delta [handle run]. rewrite reportIllegalDumping_run.
  cbn [snd].
  assert (E : hotspots
                (with_notifications
                   (notify (0 + 1) MsgReportDone :: notifications initialState)
                   (with_userPoints (userPoints initialState + 50)
                      (with_badges (map (addBadgeProgress 2) (badges initialState))
                         (afterMission initialState 2 0
                            (with_hotspots
                               (reportedHotspots initialState 0 defaultLocation)
                               initialState))))) =
              reportedHotspots initialState 0 defaultLocation).
  { cbn [hotspots with_notifications with_userPoints with_badges].
    rewrite (proj1 (proj2 (proj2 (afterMission_frame _ _ _ _)))). reflexivity. }
  rewrite E. unfold reportedHotspots. rewrite F.
  split; reflexivity.
Qed.

(** * Further properties of the code *)

(** ** [calculateDistance] as a distance *)


(** The distance is at least the arc between the two parallels. *)
Lemma calculateDistance_latitude lat1 lng1 lat2 lng2 :
  (-90 <= lat1 <= 90)%R -> (-90 <= lat2 <= 90)%R ->
  (6371 * Rabs (deg2rad (lat2 - lat1)) <=
   calculateDistance lat1 lng1 lat2 lng2)%R.
Proof.
  intros H1 H2.
  rewrite (calculateDistance_haversine _ _ _ _ H1 H2).
  rewrite haversineDistance_deg2rad.
  pose proof (hav_range lat1 lat2 (deg2rad (lng2 - lng1)) H1 H2) as [A0 A1].
  pose proof (deg2rad_quarter _ H1) as Q1.
  pose proof (deg2rad_quarter _ H2) as Q2.
  pose proof (cos_ge_0 _ (proj1 Q1) (proj2 Q1)) as C1.
  pose proof (cos_ge_0 _ (proj1 Q2) (proj2 Q2)) as C2.
  set (a := (hav (deg2rad (lat2 - lat1)) +
             cos (deg2rad lat1) * cos (deg2rad lat2) *
             hav (deg2rad (lng2 - lng1)))%R) in *.
  set (d := deg2rad (lat2 - lat1)).
  assert (Hd : (- PI <= d <= PI)%R).
  { unfold d. replace (deg2rad (lat2 - lat1))
      with (deg2rad lat2 - deg2rad lat1)%R by (unfold deg2rad; field). lra. }
  assert (Hh : (hav d <= a)%R).
  { unfold a. fold d.
    pose proof (Rle_0_sqr (sin (deg2rad (lng2 - lng1) / 2))) as T.
    fold (hav (deg2rad (lng2 - lng1))) in T.
    pose proof (Rmult_le_pos _ _ (Rmult_le_pos _ _ C1 C2) T). lra. }
  assert (Hs : (sin (Rabs d / 2) <= sqrt a)%R).
  { assert (E : sqrt (hav d) = sin (Rabs d / 2)).
    { unfold hav. rewrite sqrt_Rsqr_abs.
      unfold Rabs at 2. destruct (Rcase_abs d) as [Hn|Hp].
      - replace (- d / 2)%R with (- (d / 2))%R by field. rewrite sin_neg.
        apply Rabs_left. apply sin_lt_0_var; lra.
      - apply Rabs_right. apply Rle_ge. apply sin_ge_0; lra. }
    rewrite <- E. apply sqrt_le_1_alt. exact Hh. }
  assert (Ha : (0 <= Rabs d / 2 <= PI / 2)%R).
  { pose proof (Rabs_pos d). split; [lra|].
    unfold Rabs. destruct (Rcase_abs d); lra. }
  assert (S1 : (sqrt a <= 1)%R).
  { rewrite <- sqrt_1. apply sqrt_le_1_alt. exact A1. }
  assert (S0 : (0 <= sin (Rabs d / 2))%R) by (apply sin_ge_0; lra).
  pose proof (asin_le (sin (Rabs d / 2)) (sqrt a) (conj S0 Hs) S1) as K.
  rewrite asin_sin in K by lra. lra.
Qed.

(** ** Hotspots stay apart *)

Lemma withinRadius_false location spot :
  withinRadius location spot = false <->
  (1 / 10 <= calculateDistance (Hotspot.lat spot) (Hotspot.lng spot)
               (lat location) (lng location))%R.
Proof.
  unfold withinRadius, Rltb. destruct (Rlt_dec _ _); split; intros H;
    try reflexivity; try discriminate; lra.
Qed.

Lemma separated_map f l :
  (forall spot, Hotspot.lat (f spot) = Hotspot.lat spot /\
                Hotspot.lng (f spot) = Hotspot.lng spot) ->
  separated l -> separated (map f l).
Proof.
  intros Hf. unfold separated. induction 1 as [|a l Ha _ IH]; cbn [map].
  - constructor.
  - constructor; [|exact IH].
    apply Forall_forall. intros b' Hin. apply in_map_iff in Hin.
    destruct Hin as (b & <- & Hin).
    rewrite Forall_forall in Ha. specialize (Ha b Hin).
    destruct (Hf a) as [-> ->]. destruct (Hf b) as [-> ->]. exact Ha.
Qed.

Lemma separated_snoc l spot :
  separated l ->
  Forall (fun a =>
            (1 / 10 <= calculateDistance (Hotspot.lat a) (Hotspot.lng a)
                         (Hotspot.lat spot) (Hotspot.lng spot))%R) l ->
  separated (l ++ [spot]).
Proof.
  unfold separated. induction 1 as [|a l Ha _ IH]; intros Hs; cbn [app].
  - constructor; constructor.
  - inversion Hs as [|? ? Has Hs']; subst.
    constructor; [|apply IH, Hs'].
    apply Forall_app. split; [exact Ha|]. constructor; [exact Has|constructor].
Qed.

Lemma reportedHotspots_separated c now location :
  separated (hotspots c) -> separated (reportedHotspots c now location).
Proof.
  intros H. unfold reportedHotspots.
  destruct (find _ _) as [h|] eqn:F.
  - apply separated_map; [|exact H].
    intros spot. unfold reportIf. destruct (_ =? _); split; reflexivity.
  - apply separated_snoc; [exact H|].
    apply Forall_forall. intros a Hin.
    apply (withinRadius_false location a).
    exact (find_none _ _ F a Hin).
Qed.

Lemma seedHotspots_separated : separated seedHotspots.
Proof.
  assert (K : forall a b,
            (-90 <= Hotspot.lat a <= 90)%R -> (-90 <= Hotspot.lat b <= 90)%R ->
            (1 / 1000 <= Rabs (Hotspot.lat b - Hotspot.lat a))%R ->
            (1 / 10 <= calculateDistance (Hotspot.lat a) (Hotspot.lng a)
                         (Hotspot.lat b) (Hotspot.lng b))%R).
  { intros a b Ha Hb Hd.
    pose proof (calculateDistance_latitude (Hotspot.lat a) (Hotspot.lng a)
                  (Hotspot.lat b) (Hotspot.lng b) Ha Hb) as Hl.
    replace (Rabs (deg2rad (Hotspot.lat b - Hotspot.lat a)))
      with (Rabs (Hotspot.lat b - Hotspot.lat a) * (PI / 180))%R in Hl
      by (unfold deg2rad; rewrite Rabs_mult; f_equal; symmetry;
          apply Rabs_right; pose proof PI_RGT_0; lra).
    pose proof PI2_3_2. pose proof PI_RGT_0.
    assert ((1 / 1000) * (PI / 180) <=
            Rabs (Hotspot.lat b - Hotspot.lat a) * (PI / 180))%R by nra.
    lra. }
  unfold separated, seedHotspots.
  repeat (constructor;
          [repeat (constructor;
                   [apply K; cbn [Hotspot.lat];
                    [lra|lra|
                     first [rewrite Rabs_right by lra; lra
                           |rewrite Rabs_left by lra; lra]]|])|]);
    repeat constructor.
Qed.

Lemma reachable_separated s : reachable s -> separated (hotspots s).
Proof.
  induction 1 as [|now a s _ IH]; [exact seedHotspots_separated|].
  destruct (dispatch_frame now a s) as (-> & _ & _).
  destruct (handle_hotspots now a s) as [->|(location & _ & ->)]; [exact IH|].
  apply reportedHotspots_separated, IH.
Qed.

Lemma find_own_place l : forall h,
  separated l -> In h l -> find (withinRadius (locationOf h)) l = Some h.
Proof.
  unfold separated. induction l as [|a l IH]; intros h Hs Hin; [contradiction|].
  inversion Hs as [|? ? Ha Hs']; subst. cbn [find].
  destruct Hin as [->|Hin].
  - replace (withinRadius (locationOf h) h) with true; [reflexivity|].
    symmetry. apply Rltb_true. cbn [locationOf lat lng].
    rewrite calculateDistance_same. lra.
  - rewrite Forall_forall in Ha. specialize (Ha h Hin).
    replace (withinRadius (locationOf h) a) with false; [apply IH; assumption|].
    symmetry. apply withinRadius_false. exact Ha.
Qed.



(** X3. A report made from the map at the place of a stored hotspot lands
    on that very hotspot, whatever its position in the list: no hotspot is
    appended, the hotspot's report count grows by 1 and its severity is
    recomputed. *)
Theorem X3_report_at_stored_hotspot s now h :
  reachable s -> In h (hotspots s) ->
  find (withinRadius (locationOf h)) (hotspots s) = Some h /\
  hotspots (dispatch now (Report (locationOf h)) s) =
    map (reportIf (Hotspot.id h)) (hotspots s) /\
  In (reportAgain h) (hotspots (dispatch now (Report (locationOf h)) s)) /\
  List.length (hotspots (dispatch now (Report (locationOf h)) s)) =
    List.length (hotspots s).
Proof.
  intros Hr Hin.
  pose proof (find_own_place _ h (reachable_separated s Hr) Hin) as F.
  assert (E : hotspots (dispatch now (Report (locationOf h)) s) =
              map (reportIf (Hotspot.id h)) (hotspots s)).
  { destruct (dispatch_frame now (Report (locationOf h)) s) as (-> & _ & _).
    cbv beta iota delta [handle run]. rewrite reportIllegalDumping_run.
    cbn [snd hotspots with_notifications with_userPoints with_badges].
    rewrite (proj1 (proj2 (proj2 (afterMission_frame _ _ _ _)))).
    cbn [hotspots with_hotspots]. unfold reportedHotspots. rewrite F.
    reflexivity. }
  split; [exact F|]. split; [exact E|]. rewrite E. split.
  - apply in_map_iff. exists h. split; [|exact Hin].
    unfold reportIf. rewrite Z.eqb_refl. reflexivity.
  - apply length_map.
Qed.

Lemma X3_report_at_stored_hotspot_witness :
  map Hotspot.reportCount
    (hotspots
       (dispatch 0
          (Report
             (locationOf
                (Hotspot.mk 3 (Named "대학가 상점 거리") low "어제"
                   37.601 127.013 3)))
          initialState)) = [12; 8; 4; 7].
Proof.
  destruct (X3_report_at_stored_hotspot initialState 0
              (Hotspot.mk 3 (Named "대학가 상점 거리") low "어제" 37.601 127.013 3))
    as (_ & E & _); [constructor|right; right; left; reflexivity|].
  rewrite E. reflexivity.
Defined.

(** ** Missions, badges and the level on every render *)

Lemma handle_level now a c : level (handle now a c) = level c.
Proof.
  destruct a; cbv beta iota delta [handle run].
  - rewrite captureMonster_run. cbv zeta.
    destruct (find _ _) as [cm|]; [|reflexivity].
    destruct (WasteType_eqb _ _); [|reflexivity].
    rewrite (proj1 (afterMission_frame _ _ _ _)). reflexivity.
  - rewrite reportIllegalDumping_run. cbn.
    rewrite (proj1 (afterMission_frame _ _ _ _)). reflexivity.
  - rewrite joinEvent_run. destruct (find _ _); [|reflexivity]. cbn.
    rewrite (proj1 (afterMission_frame _ _ _ _)). reflexivity.
  - rewrite inviteFriend_run. cbn.
    rewrite (proj1 (afterMission_frame _ _ _ _)). reflexivity.
  - reflexivity.
  - reflexivity.
  - reflexivity.
Qed.

Lemma handle_badges now a c :
  badges (handle now a c) = badges c \/
  exists k, (k = 1 \/ k = 2 \/ k = 4) /\
            badges (handle now a c) = map (addBadgeProgress k) (badges c).
Proof.
  destruct a; cbv beta iota delta [handle run].
  - rewrite captureMonster_run. cbv zeta.
    destruct (find _ _) as [cm|]; [|left; reflexivity].
    destruct (WasteType_eqb _ _); [|left; reflexivity].
    right. exists 1. split; [auto|].
    rewrite (proj1 (proj2 (proj2 (proj2 (proj2 (afterMission_frame _ _ _ _)))))).
    reflexivity.
  - right. exists 2. split; [auto|].
    rewrite reportIllegalDumping_run. reflexivity.
  - rewrite joinEvent_run. destruct (find _ _); [|left; reflexivity].
    right. exists 4. split; [auto|]. reflexivity.
  - left. rewrite inviteFriend_run. cbn.
    rewrite (proj1 (proj2 (proj2 (proj2 (proj2 (afterMission_frame _ _ _ _)))))).
    reflexivity.
  - left. reflexivity.
  - left. reflexivity.
  - left. reflexivity.
Qed.

Lemma handle_userPoints_le now a c :
  Forall (fun m => 0 <= Monster.points m) (monsters c) ->
  Forall (fun m => 0 <= Mission.reward m) (missions c) ->
  userPoints c <= userPoints (handle now a c).
Proof.
  intros Hmon Hmis. rewrite Forall_forall in Hmon, Hmis.
  destruct (handle_userPoints now a c)
    as [H|[(m & Hin & H)|[(m & Hin & H)|H]]]; rewrite H.
  - lia.
  - specialize (Hmon m Hin). lia.
  - specialize (Hmis m Hin). lia.
  - lia.
Qed.

Lemma level_of_points_le p q : p <= q -> p / 100 + 1 <= q / 100 + 1.
Proof. intros H. pose proof (Z.div_le_mono p q 100 ltac:(lia) H). lia. Qed.

Lemma map_ids_addBadgeProgress k l :
  map Badge.id (map (addBadgeProgress k) l) = map Badge.id l.
Proof.
  rewrite map_map. apply map_ext. intros b. unfold addBadgeProgress.
  destruct (_ =? _); reflexivity.
Qed.

Lemma map_ids_unlockIf l : map Badge.id (map unlockIf l) = map Badge.id l.
Proof.
  rewrite map_map. apply map_ext. intros b. unfold unlockIf.
  destruct (unlockable b); reflexivity.
Qed.

Lemma map_ids_heroProgress v l :
  map Badge.id (map (heroProgress v) l) = map Badge.id l.
Proof.
  rewrite map_map. apply map_ext. intros b. unfold heroProgress.
  destruct (_ =? _); reflexivity.
Qed.

Lemma Forall_map_badges (P Q : Badge.t -> Prop) f l :
  (forall b, P b -> Q (f b)) -> Forall P l -> Forall Q (map f l).
Proof.
  intros H. induction 1; cbn [map]; constructor; auto.
Qed.

Lemma Sound_handle now a c : Sound c -> Sound (handle now a c).
Proof.
  intros [Hmon Hrew Hmis Hids Hunl Hlev Hle Heq].
  pose proof (handle_userPoints_le now a c Hmon Hrew) as Hp.
  pose proof (handle_level now a c) as El.
  pose proof (level_of_points_le _ _ Hp) as Hdiv.
  assert (Hb : forall (P : Badge.t -> Prop),
            (forall b k, k = 1 \/ k = 2 \/ k = 4 ->
                         P b -> P (addBadgeProgress k b)) ->
            Forall P (badges c) -> Forall P (badges (handle now a c))).
  { intros P HP H.
    destruct (handle_badges now a c) as [->|(k & Hk & ->)]; [exact H|].
    eapply Forall_map_badges; [|exact H]. intros b. apply HP, Hk. }
  constructor.
  - destruct (handle_monsters now a c) as [->|[id ->]]; [exact Hmon|].
    rewrite Forall_forall in *. intros x Hin. apply in_map_iff in Hin.
    destruct Hin as (m & <- & Hin). specialize (Hmon m Hin).
    unfold captureIf. destruct (_ =? _); exact Hmon.
  - destruct (handle_missions now a c) as [->|(mid & _ & ->)]; [exact Hrew|].
    rewrite Forall_forall in *. intros x Hin. apply in_map_iff in Hin.
    destruct Hin as (m & <- & Hin). specialize (Hrew m Hin).
    unfold advanceIf. destruct (_ =? _); exact Hrew.
  - destruct (handle_missions now a c) as [->|(mid & _ & ->)]; [exact Hmis|].
    rewrite Forall_forall in *. intros x Hin. apply in_map_iff in Hin.
    destruct Hin as (m & <- & Hin). specialize (Hmis m Hin).
    unfold advanceIf. destruct (_ =? _); [reflexivity|exact Hmis].
  - destruct (handle_badges now a c) as [->|(k & _ & ->)]; [exact Hids|].
    rewrite map_ids_addBadgeProgress. exact Hids.
  - apply Hb; [|exact Hunl]. intros b k _ H. unfold addBadgeProgress.
    destruct (_ =? _); [cbn; intros U; specialize (H U); lia|exact H].
  - rewrite El. lia.
  - rewrite El. apply Hb; [|exact Hle]. intros b k Hk H.
    unfold addBadgeProgress. destruct (Badge.id b =? k) eqn:E; [|exact H].
    cbn. intros H5. apply Z.eqb_eq in E. lia.
  - intros Hok. unfold levelOk in Hok. rewrite El in Hok |- *.
    assert (Hok' : levelOk c) by (unfold levelOk; lia).
    apply Hb; [|exact (Heq Hok')]. intros b k Hk H.
    unfold addBadgeProgress. destruct (Badge.id b =? k) eqn:E; [|exact H].
    cbn. intros H5. apply Z.eqb_eq in E. lia.
Qed.

Lemma Sound_runEffects now c : Sound c -> Sound (runEffects now c).
Proof.
  intros [Hmon Hrew Hmis Hids Hunl Hlev Hle Heq].
  destruct (runEffects_frame now c) as (_ & _ & Emo & Emi & _).
  pose proof (runEffects_level now c) as El.
  pose proof (runEffects_userPoints now c) as Ep.
  pose proof (runEffects_badges now c) as Eb.
  constructor.
  - rewrite Emo. exact Hmon.
  - rewrite Emi. exact Hrew.
  - rewrite Emi. exact Hmis.
  - rewrite Eb. destruct (existsb _ _); [rewrite map_ids_unlockIf; exact Hids|].
    destruct (_ <? _); [rewrite map_ids_heroProgress|]; exact Hids.
  - rewrite Eb. destruct (existsb _ _).
    + eapply Forall_map_badges; [|exact Hunl]. intros b H. unfold unlockIf.
      destruct (unlockable b) eqn:U; [|exact H].
      intros _. cbn. unfold unlockable in U.
      apply andb_true_iff in U. destruct U as [U _]. apply Z.leb_le in U. exact U.
    + destruct (level c <? userPoints c / 100 + 1) eqn:L; [|exact Hunl].
      apply Z.ltb_lt in L.
      rewrite Forall_forall in *. intros x Hin. apply in_map_iff in Hin.
      destruct Hin as (b & <- & Hin). specialize (Hunl b Hin).
      specialize (Hle b Hin). unfold heroProgress.
      destruct (Badge.id b =? 5) eqn:E; [|exact Hunl].
      apply Z.eqb_eq in E. cbn. intros U. specialize (Hunl U). specialize (Hle E).
      lia.
  - rewrite El, Ep. apply level_of_points_le. destruct (existsb _ _); lia.
  - rewrite El, Eb. destruct (existsb _ _).
    + eapply Forall_map_badges; [|exact Hle]. intros b H. unfold unlockIf.
      destruct (unlockable b); cbn; intros E; specialize (H E); lia.
    + destruct (level c <? userPoints c / 100 + 1) eqn:L.
      * eapply Forall_map_badges; [|exact Hle]. intros b H. unfold heroProgress.
        destruct (Badge.id b =? 5) eqn:E; [cbn; lia|].
        intros E5. apply Z.eqb_neq in E. contradiction.
      * eapply Forall_impl; [|exact Hle]. cbn. intros b H E. specialize (H E). lia.
  - unfold levelOk. rewrite El, Ep, Eb. destruct (existsb _ _).
    + intros Hok. exfalso.
      replace (userPoints c + 100) with (userPoints c + 1 * 100) in Hok by lia.
      rewrite Z.div_add in Hok by lia. lia.
    + intros _. destruct (level c <? userPoints c / 100 + 1) eqn:L.
      * eapply Forall_map_badges with (P := fun _ => True);
          [|apply Forall_forall; auto].
        intros b _. unfold heroProgress.
        destruct (Badge.id b =? 5) eqn:E; [reflexivity|].
        intros E5. apply Z.eqb_neq in E. contradiction.
      * apply Z.ltb_ge in L.
        assert (Hok : levelOk c) by (unfold levelOk; lia).
        unfold levelOk in Hok. rewrite <- Hok. exact (Heq Hok).
Qed.

Lemma Sound_settle fuel now : forall s, Sound s -> Sound (settle fuel now s).
Proof.
  induction fuel as [|fuel IH]; intros s H; cbn [settle]; [exact H|].
  destruct (effectsIdle s); [exact H|]. apply IH, Sound_runEffects, H.
Qed.

Lemma Sound_initialState : Sound initialState.
Proof.
  constructor.
  - cbn. repeat constructor; discriminate.
  - cbn. repeat constructor; discriminate.
  - cbn. repeat constructor.
  - reflexivity.
  - cbn. repeat constructor; discriminate.
  - discriminate.
  - cbn. repeat constructor; cbn; intros; try discriminate; lia.
  - intros _. cbn. repeat constructor; cbn; intros; try discriminate; reflexivity.
Qed.

Lemma reachable_Sound s : reachable s -> Sound s.
Proof.
  induction 1 as [|now a s _ IH]; [apply Sound_initialState|].
  unfold dispatch. cbv zeta. apply Sound_settle, Sound_handle, IH.
Qed.

(** X4. In every reachable state a mission is marked completed exactly
    when its progress has reached its total, and is open exactly when its
    progress is below it. *)
Theorem X4_mission_completed_iff s :
  reachable s ->
  Forall
    (fun m =>
       (Mission.completed m = true <-> Mission.progress m = Mission.total m) /\
       (Mission.completed m = false <-> Mission.progress m < Mission.total m))
    (missions s).
Proof.
  intros Hr. pose proof (reachable_Inv s Hr) as [_ Hok _ _ _].
  pose proof (reachable_Sound s Hr) as [_ _ Hc _ _ _ _ _].
  rewrite Forall_forall in *. intros m Hin.
  destruct (Hok m Hin) as (_ & Hle & _). specialize (Hc m Hin).
  rewrite Hc. split; split; intros H.
  - apply Z.leb_le in H. lia.
  - apply Z.leb_le. lia.
  - apply Z.leb_gt in H. lia.
  - apply Z.leb_gt. lia.
Qed.

Lemma X4_mission_completed_iff_witness :
  Forall
    (fun m =>
       (Mission.completed m = true <-> Mission.progress m = Mission.total m) /\
       (Mission.completed m = false <-> Mission.progress m < Mission.total m))
    (missions (dispatch 0 (Join 1) initialState)).
Proof.
  apply X4_mission_completed_iff. repeat constructor.
Defined.

(** X5. In every reachable state a badge is unlocked exactly when its
    progress has reached its total. *)
Theorem X5_badge_unlocked_iff s :
  reachable s ->
  Forall
    (fun b => Badge.unlocked b = true <-> Badge.total b <= Badge.progress b)
    (badges s).
Proof.
  intros Hr. pose proof (reachable_Inv s Hr) as [_ _ _ _ Hi].
  pose proof (reachable_Sound s Hr) as [_ _ _ _ Hu _ _ _].
  apply idle_iff in Hi. destruct Hi as [_ Hi].
  rewrite Forall_forall in *. intros b Hin. split; [apply Hu, Hin|].
  intros Hle. destruct (Badge.unlocked b) eqn:U; [reflexivity|exfalso].
  assert (K : existsb unlockable (badges s) = true).
  { apply existsb_exists. exists b. split; [exact Hin|].
    unfold unlockable. rewrite U. apply andb_true_iff. split; [|reflexivity].
    apply Z.leb_le. exact Hle. }
  congruence.
Qed.

Lemma X5_badge_unlocked_iff_witness :
  Forall
    (fun b => Badge.unlocked b = true <-> Badge.total b <= Badge.progress b)
    (badges (dispatch 0 (Report defaultLocation) initialState)).
Proof.
  apply X5_badge_unlocked_iff. repeat constructor.
Defined.

(** X6. In every reachable state the badges are the five seed badges in
    their order, and the progress of the badge with id 5 equals the level,
    which equals floor(points / 100) + 1: a level rise whose write to that
    badge is overwritten on one render is made good on a later one. *)
Theorem X6_hero_progress_is_level s :
  reachable s ->
  map Badge.id (badges s) = [1; 2; 3; 4; 5] /\
  level s = userPoints s / 100 + 1 /\
  Forall (fun b => Badge.id b = 5 -> Badge.progress b = level s) (badges s).
Proof.
  intros Hr. pose proof (reachable_Inv s Hr) as [_ _ _ _ Hi].
  pose proof (reachable_Sound s Hr) as [_ _ _ Hids _ _ _ Heq].
  apply idle_iff in Hi. destruct Hi as [Hok _].
  split; [exact Hids|]. split; [exact Hok|]. apply Heq, Hok.
Qed.

Lemma X6_hero_progress_is_level_witness :
  map (fun b => (Badge.id b, Badge.progress b))
    (badges
       (dispatch 0 (Report defaultLocation)
          (dispatch 0 (Capture 1)
             (dispatch 0 (Report defaultLocation) initialState)))) =
  [(1, 5); (2, 5); (3, 12); (4, 7); (5, 12)] /\
  Forall
    (fun b =>
       Badge.id b = 5 ->
       Badge.progress b =
       level
         (dispatch 0 (Report defaultLocation)
            (dispatch 0 (Capture 1)
               (dispatch 0 (Report defaultLocation) initialState))))
    (badges
       (dispatch 0 (Report defaultLocation)
          (dispatch 0 (Capture 1)
             (dispatch 0 (Report defaultLocation) initialState)))).
Proof.
  split; [reflexivity|].
  apply X6_hero_progress_is_level. repeat constructor.
Defined.

Lemma Forall2_badgeGrows_refl l : Forall2 badgeGrows l l.
Proof.
  induction l; constructor; [|assumption]. unfold badgeGrows. intuition lia.
Qed.

Lemma Forall2_badgeGrows_trans l1 l2 l3 :
  Forall2 badgeGrows l1 l2 -> Forall2 badgeGrows l2 l3 ->
  Forall2 badgeGrows l1 l3.
Proof.
  intros H. revert l3. induction H as [|a b l1 l2 Hab _ IH]; intros l3 H23.
  - inversion H23. constructor.
  - inversion H23 as [|? c ? l3' Hbc H23']; subst. constructor; [|apply IH, H23'].
    unfold badgeGrows in *.
    destruct Hab as (A1 & A2 & A3 & A4 & A5).
    destruct Hbc as (B1 & B2 & B3 & B4 & B5).
    repeat split; [congruence|congruence|congruence|lia|auto].
Qed.

Lemma Forall2_badgeGrows_map (P : Badge.t -> Prop) f l :
  (forall b, P b -> badgeGrows b (f b)) -> Forall P l ->
  Forall2 badgeGrows l (map f l).
Proof.
  intros H. induction 1; cbn [map]; constructor; auto.
Qed.

Lemma badgeGrows_handle now a c :
  Forall2 badgeGrows (badges c) (badges (handle now a c)).
Proof.
  destruct (handle_badges now a c) as [->|(k & _ & ->)];
    [apply Forall2_badgeGrows_refl|].
  apply Forall2_badgeGrows_map with (P := fun _ => True);
    [|apply Forall_forall; auto].
  intros b _. unfold badgeGrows, addBadgeProgress.
  destruct (_ =? _); cbn; intuition lia.
Qed.

Lemma badgeGrows_runEffects now c :
  Sound c -> Forall2 badgeGrows (badges c) (badges (runEffects now c)).
Proof.
  intros [_ _ _ _ _ Hlev Hle _]. rewrite runEffects_badges.
  destruct (existsb _ _).
  - apply Forall2_badgeGrows_map with (P := fun _ => True);
      [|apply Forall_forall; auto].
    intros b _. unfold badgeGrows, unlockIf.
    destruct (unlockable b); cbn; intuition lia.
  - destruct (level c <? userPoints c / 100 + 1) eqn:L;
      [|apply Forall2_badgeGrows_refl].
    apply Z.ltb_lt in L.
    apply Forall2_badgeGrows_map
      with (P := fun b => Badge.id b = 5 -> Badge.progress b <= level c);
      [|exact Hle].
    intros b H. unfold badgeGrows, heroProgress.
    destruct (Badge.id b =? 5) eqn:E; cbn; [|intuition lia].
    apply Z.eqb_eq in E. specialize (H E). intuition lia.
Qed.

Lemma badgeGrows_settle fuel now : forall s,
  Sound s -> Forall2 badgeGrows (badges s) (badges (settle fuel now s)).
Proof.
  induction fuel as [|fuel IH]; intros s H; cbn [settle];
    [apply Forall2_badgeGrows_refl|].
  destruct (effectsIdle s); [apply Forall2_badgeGrows_refl|].
  eapply Forall2_badgeGrows_trans; [apply badgeGrows_runEffects, H|].
  apply IH, Sound_runEffects, H.
Qed.

(** X7. From a reachable state no operation takes anything back from a
    badge: each badge keeps its id, name and total, its progress does not
    go down, and an unlocked badge stays unlocked. *)
Theorem X7_badges_only_grow s now a :
  reachable s ->
  Forall2
    (fun b b' =>
       Badge.id b' = Badge.id b /\
       Badge.name b' = Badge.name b /\
       Badge.total b' = Badge.total b /\
       Badge.progress b <= Badge.progress b' /\
       (Badge.unlocked b = true -> Badge.unlocked b' = true))
    (badges s) (badges (dispatch now a s)).
Proof.
  intros Hr. pose proof (reachable_Sound s Hr) as Hs.
  unfold dispatch. cbv zeta.
  eapply Forall2_badgeGrows_trans; [apply badgeGrows_handle|].
  apply badgeGrows_settle, Sound_handle, Hs.
Qed.

Lemma X7_badges_only_grow_witness :
  Forall2
    (fun b b' =>
       Badge.id b' = Badge.id b /\
       Badge.name b' = Badge.name b /\
       Badge.total b' = Badge.total b /\
       Badge.progress b <= Badge.progress b' /\
       (Badge.unlocked b = true -> Badge.unlocked b' = true))
    (badges initialState) (badges (dispatch 0 (Join 2) initialState)).
Proof.
  apply X7_badges_only_grow. constructor.
Defined.

(** ** The renders come to rest *)

Lemma runEffects_idle now c : effectsIdle c = true -> runEffects now c = c.
Proof.
  intros H. apply idle_iff in H. destruct H as [Hok Hu]. unfold levelOk in Hok.
  rewrite runEffects_eq, badgeEffect_run, Hu, levelEffect_run. cbv zeta.
  rewrite <- Hok, Z.eqb_refl. reflexivity.
Qed.

(** X8. The renders that follow a handler always come to rest, whatever
    the state: after 2 * (number of badges) + 1 renders no effect fires any
    more, the level agrees with the points, no badge waits to be unlocked,
    and further renders change nothing. *)
Theorem X8_renders_come_to_rest s now fuel :
  (2 * List.length (badges s) + 1 <= fuel)%nat ->
  effectsIdle (settle fuel now s) = true /\
  level (settle fuel now s) = userPoints (settle fuel now s) / 100 + 1 /\
  existsb unlockable (badges (settle fuel now s)) = false /\
  settle fuel now s = settle (2 * List.length (badges s) + 1) now s /\
  runEffects now (settle fuel now s) = settle fuel now s.
Proof.
  intros H. pose proof (settle_idle now s fuel H) as Hi.
  split; [exact Hi|]. destruct (proj1 (idle_iff _) Hi) as [Hok Hu].
  split; [exact Hok|]. split; [exact Hu|].
  split; [apply settle_stable, H|]. apply runEffects_idle, Hi.
Qed.

Lemma X8_renders_come_to_rest_witness :
  effectsIdle
    (settle 11 0 (handle 0 (Report defaultLocation) initialState)) = true.
Proof.
  apply (X8_renders_come_to_rest
           (handle 0 (Report defaultLocation) initialState) 0 11).
  apply Nat.leb_le. reflexivity.
Defined.

(** The badge the fold of the badge effect is left with is the last one
    in stored order that waits to be unlocked. *)
Lemma lastUnlockable_last l : forall acc b,
  lastUnlockable l acc = Some b ->
  (exists before after,
     l = before ++ b :: after /\ unlockable b = true /\
     existsb unlockable after = false) \/
  (acc = Some b /\ existsb unlockable l = false).
Proof.
  induction l as [|a l IH]; intros acc b H; [right; split; [exact H|reflexivity]|].
  cbn in H. apply IH in H. destruct H as [(before & after & E & U & L)|[H L]].
  - left. exists (a :: before), after. rewrite E. repeat split; assumption.
  - destruct (unlockable a) eqn:Ua.
    + inversion H; subst. left. exists [], l. repeat split; assumption.
    + right. split; [exact H|]. cbn. rewrite Ua. exact L.
Qed.

(** X9. A render on which at least one badge waits to be unlocked unlocks
    every such badge, adds exactly 100 points however many badges it unlocks,
    and adds exactly one notification, that of the last such badge in stored
    order: the badges split as [before ++ b :: after] with [b] waiting, no
    badge of [after] waiting, and the notification naming [b].  A render on
    which none waits leaves the points alone. *)
Theorem X9_badge_render now c :
  (existsb unlockable (badges c) = true ->
   userPoints (runEffects now c) = userPoints c + 100 /\
   badges (runEffects now c) =
     map (fun b => if unlockable b then unlock b else b) (badges c) /\
   existsb unlockable (badges (runEffects now c)) = false /\
   exists before b after,
     badges c = before ++ b :: after /\
     unlockable b = true /\
     existsb unlockable after = false /\
     notifications (runEffects now c) =
       notify now (MsgBadgeUnlocked (Badge.name b)) :: notifications c) /\
  (existsb unlockable (badges c) = false ->
   userPoints (runEffects now c) = userPoints c).
Proof.
  split; intros H.
  - rewrite runEffects_userPoints, runEffects_badges, H.
    split; [reflexivity|]. split; [reflexivity|].
    split; [apply unlockIf_settled|].
    destruct (lastUnlockable_some _ H) as [b Hb].
    destruct (lastUnlockable_last _ _ _ Hb)
      as [(before & after & E & U & L)|[K _]]; [|discriminate].
    exists before, b, after.
    split; [exact E|]. split; [exact U|]. split; [exact L|].
    rewrite runEffects_eq, badgeEffect_run, H, Hb. reflexivity.
  - rewrite runEffects_userPoints, H. reflexivity.
Qed.

(** Two badges wait: one bonus of 100 points, and the notification names
    the second. *)
Lemma X9_badge_render_witness :
  let c := with_badges
             [Badge.mk 1 "a" 10 10 false; Badge.mk 2 "b" 5 5 false]
             initialState in
  existsb unlockable (badges c) = true /\
  userPoints (runEffects 0 c) = 750 + 100 /\
  notifications (runEffects 0 c) =
    notify 0 (MsgBadgeUnlocked "b") :: notifications initialState.
Proof.
  cbv zeta.
  destruct (proj1 (X9_badge_render 0
              (with_badges
                 [Badge.mk 1 "a" 10 10 false; Badge.mk 2 "b" 5 5 false]
                 initialState)) eq_refl)
    as (P & _ & _ & before & b & after & E & U & L & N).
  split; [reflexivity|]. split; [exact P|].
  rewrite N. cbn [badges with_badges] in E.
  destruct before as [|x [|y before]]; cbn [app] in E; inversion E; subst.
  - discriminate L.
  - reflexivity.
  - destruct before; discriminate.
Defined.

(** ** Notifications are kept *)

Lemma afterMission_notifications c mid nid s :
  notifications (afterMission c mid nid s) = notifications s \/
  exists n, notifications (afterMission c mid nid s) = n :: notifications c.
Proof.
  unfold afterMission. destruct (missionOpen c mid); [|left; reflexivity].
  destruct (lastCrossing _ _ _) as [m|]; [|left; reflexivity].
  right. eexists. reflexivity.
Qed.

Lemma handle_notifications now a c :
  notifications (handle now a c) = notifications c \/
  (exists n, notifications (handle now a c) = n :: notifications c) \/
  (exists id, notifications (handle now a c) =
              map (readIf id) (notifications c)) \/
  notifications (handle now a c) = map setRead (notifications c).
Proof.
  destruct a; cbv beta iota delta [handle run].
  - rewrite captureMonster_run. cbv zeta.
    destruct (find _ _) as [cm|]; [|left; reflexivity].
    destruct (WasteType_eqb _ _); [|right; left; eexists; reflexivity].
    match goal with |- context [afterMission c ?i ?n ?s] =>
      destruct (afterMission_notifications c i n s) as [->|[x ->]] end;
      right; left; eexists; reflexivity.
  - rewrite reportIllegalDumping_run. right; left. eexists. reflexivity.
  - rewrite joinEvent_run. destruct (find _ _); [|left; reflexivity].
    cbn [notifications with_badges].
    match goal with |- context [afterMission c ?i ?n ?s] =>
      destruct (afterMission_notifications c i n s) as [->|[x ->]] end;
      right; left; eexists; reflexivity.
  - rewrite inviteFriend_run. right; left. eexists. reflexivity.
  - right; right; left. exists id. reflexivity.
  - right; right; right. reflexivity.
  - left. reflexivity.
Qed.

Lemma runEffects_notifications now c :
  notifications (runEffects now c) = notifications c \/
  exists n, notifications (runEffects now c) = n :: notifications c.
Proof.
  rewrite runEffects_eq, badgeEffect_run, levelEffect_run. cbv zeta.
  destruct (existsb unlockable (badges c)).
  - destruct (lastUnlockable _ _) as [b|].
    + right. eexists. reflexivity.
    + destruct (_ =? _); [left; reflexivity|].
      destruct (_ <? _); [right; eexists|left]; reflexivity.
  - destruct (_ =? _); [left; reflexivity|].
    destruct (_ <? _); [right; eexists|left]; reflexivity.
Qed.

Lemma keepsNotifications_refl l : keepsNotifications l l.
Proof.
  exists [], l. split; [reflexivity|].
  induction l; constructor; auto.
Qed.

Lemma keepsNotifications_cons old new n :
  keepsNotifications old new -> keepsNotifications old (n :: new).
Proof.
  intros (added & kept & -> & H). exists (n :: added), kept. split; [reflexivity|exact H].
Qed.

Lemma keepsNotifications_map f l :
  (forall n, f n = n \/ f n = setRead n) -> keepsNotifications l (map f l).
Proof.
  intros Hf. exists [], (map f l). split; [reflexivity|].
  induction l; cbn [map]; constructor; auto.
Qed.

Lemma keepsNotifications_settle fuel now old : forall s,
  keepsNotifications old (notifications s) ->
  keepsNotifications old (notifications (settle fuel now s)).
Proof.
  induction fuel as [|fuel IH]; intros s H; cbn [settle]; [exact H|].
  destruct (effectsIdle s); [exact H|]. apply IH.
  destruct (runEffects_notifications now s) as [->|[n ->]]; [exact H|].
  apply keepsNotifications_cons, H.
Qed.

(** X10. No operation drops, reorders or rewrites a notification: after
    it the old notifications are all still there, in their order, below
    whatever was added, each one as it was or marked read.  A notification
    that is read is never marked unread again. *)
Theorem X10_notifications_kept s now a :
  exists added kept,
    notifications (dispatch now a s) = added ++ kept /\
    Forall2
      (fun n n' =>
         Notification.id n' = Notification.id n /\
         Notification.message n' = Notification.message n /\
         Notification.time n' = Notification.time n /\
         Notification.urgent n' = Notification.urgent n /\
         (Notification.read n = true -> Notification.read n' = true))
      (notifications s) kept.
Proof.
  assert (K : keepsNotifications (notifications s)
                (notifications (dispatch now a s))).
  { unfold dispatch. cbv zeta. apply keepsNotifications_settle.
    destruct (handle_notifications now a s) as [->|[[n ->]|[[id ->]| ->]]].
    - apply keepsNotifications_refl.
    - apply keepsNotifications_cons, keepsNotifications_refl.
    - apply keepsNotifications_map. intros n. unfold readIf.
      destruct (_ =? _); auto.
    - apply keepsNotifications_map. auto. }
  destruct K as (added & kept & E & H). exists added, kept.
  split; [exact E|]. clear E.
  induction H as [|n n' l l' Hn _ IH]; constructor; [|exact IH].
  destruct Hn as [->| ->]; cbn; repeat split; auto.
Qed.

Lemma count_unread_setRead l : unreadNotificationsCount (map setRead l) = 0%nat.
Proof.
  unfold unreadNotificationsCount. induction l as [|n l IH]; [reflexivity|].
  cbn. exact IH.
Qed.

Lemma count_unread_readIf id l :
  (unreadNotificationsCount (map (readIf id) l) +
   List.length
     (filter (fun n => negb (Notification.read n) && (Notification.id n =? id)%Z) l)
   = unreadNotificationsCount l)%nat.
Proof.
  unfold unreadNotificationsCount. induction l as [|n l IH]; [reflexivity|].
  cbn [map filter]. unfold readIf at 1.
  destruct (Notification.id n =? id); destruct (Notification.read n) eqn:R;
    cbn [setRead Notification.read negb andb List.length]; rewrite ?R;
    cbn [negb List.length]; lia.
Qed.

Lemma readIf_idem id l : map (readIf id) (map (readIf id) l) = map (readIf id) l.
Proof.
  rewrite map_map. apply map_ext. intros n. unfold readIf.
  destruct (Notification.id n =? id) eqn:E; [|rewrite E; reflexivity].
  cbn. rewrite E. reflexivity.
Qed.

(** X11. Marking notifications read.  [markAllNotificationsAsRead] leaves
    no unread notification.  [markNotificationAsRead id] lowers the unread
    count by exactly the number of unread notifications with that id (so by
    nothing for an id no notification has), and doing it twice is the same as
    doing it once.  Both keep the number of notifications and touch nothing
    but the notifications. *)
Theorem X11_mark_read c id :
  let all := snd (run (fun c => markAllNotificationsAsRead c) c) in
  let one := snd (run (fun c => markNotificationAsRead c id) c) in
  unreadNotificationsCount (notifications all) = 0%nat /\
  (unreadNotificationsCount (notifications one) +
   List.length
     (filter (fun n => negb (Notification.read n) && (Notification.id n =? id)%Z)
        (notifications c))
   = unreadNotificationsCount (notifications c))%nat /\
  snd (run (fun c => markNotificationAsRead c id) one) = one /\
  List.length (notifications all) = List.length (notifications c) /\
  List.length (notifications one) = List.length (notifications c) /\
  all = with_notifications (map setRead (notifications c)) c /\
  one = with_notifications (map (readIf id) (notifications c)) c.
Proof.
  cbv zeta. unfold run, markAllNotificationsAsRead, markNotificationAsRead,
    setNotifications. cbn [snd valueToStore notifications with_notifications].
  fold (readIf id).
  change (map (fun notif => if Notification.id notif =? id
                            then setRead notif else notif))
    with (map (readIf id)).
  split; [apply count_unread_setRead|].
  split; [apply count_unread_readIf|].
  split; [unfold with_notifications; cbn; rewrite readIf_idem; reflexivity|].
  split; [apply length_map|]. split; [apply length_map|].
  split; reflexivity.
Qed.

(** ** The camera screen *)



Lemma handle_capture_monsters now id s :
  monsters (handle now (Capture id) s) = map (captureIf id) (monsters s).
Proof.
  cbv beta iota delta [handle run]. rewrite captureMonster_run. cbv zeta.
  destruct (find _ _) as [cm|]; [|reflexivity].
  destruct (WasteType_eqb _ _); [|reflexivity].
  rewrite (proj1 (proj2 (proj2 (proj2 (afterMission_frame _ _ _ _))))).
  reflexivity.
Qed.







(** ** The score under captures and reports *)

Lemma captured_count_captureIf id l :
  (List.length (filter Monster.captured l) <=
   List.length (filter Monster.captured (map (captureIf id) l)))%nat.
Proof.
  induction l as [|m l IH]; [reflexivity|].
  cbn [map filter]. unfold captureIf at 1.
  destruct (Monster.id m =? id); cbn [setCaptured Monster.captured];
    destruct (Monster.captured m); cbn [List.length]; lia.
Qed.

Lemma specCaptureRate_captureIf id l :
  (specCaptureRate l <= specCaptureRate (map (captureIf id) l))%Q.
Proof.
  destruct l as [|m l]; [discriminate|].
  unfold specCaptureRate. cbn [map].
  change (captureIf id m :: map (captureIf id) l) with (map (captureIf id) (m :: l)).
  rewrite length_map.
  set (t := Z.of_nat (List.length (m :: l))).
  assert (Ht : (0 < inject_Z t)%Q).
  { replace 0%Q with (inject_Z 0) by reflexivity. rewrite <- Zlt_Qlt.
    unfold t. cbn [List.length]. lia. }
  pose proof (captured_count_captureIf id (m :: l)) as H.
  apply inj_le in H. rewrite Zle_Qle in H.
  apply Qmult_le_compat_r with (z := (/ inject_Z t)%Q) in H;
    [exact H|apply Qlt_le_weak, Qinv_lt_0_compat, Ht].
Qed.

Lemma specSeverity_app l1 l2 :
  specSeverity (l1 ++ l2) = specSeverity l1 + specSeverity l2.
Proof.
  unfold specSeverity. induction l1 as [|a l IH]; cbn [app map fold_right]; lia.
Qed.

Lemma severityWeight_levelOf_succ n :
  severityWeight (levelOf n) <= severityWeight (levelOf (n + 1)).
Proof.
  unfold levelOf.
  destruct (10 <? n) eqn:A; destruct (10 <? n + 1) eqn:B;
    destruct (5 <? n) eqn:C; destruct (5 <? n + 1) eqn:D; cbn; try lia;
    repeat match goal with
           | H : (_ <? _) = true |- _ => apply Z.ltb_lt in H
           | H : (_ <? _) = false |- _ => apply Z.ltb_ge in H
           end; lia.
Qed.

Lemma specSeverity_reportIf id l :
  Forall hotspotOk l -> specSeverity l <= specSeverity (map (reportIf id) l).
Proof.
  unfold specSeverity. induction 1 as [|spot l Hs _ IH]; cbn [map fold_right]; [lia|].
  assert (severityWeight (Hotspot.level spot) <=
          severityWeight (Hotspot.level (reportIf id spot))).
  { unfold reportIf. destruct (_ =? _); [|lia].
    cbn. unfold hotspotOk in Hs. rewrite Hs. apply severityWeight_levelOf_succ. }
  lia.
Qed.

Lemma score_mono hs hs' ms ms' :
  specSeverity hs' <= specSeverity hs ->
  (specCaptureRate ms <= specCaptureRate ms')%Q ->
  calculateEnvironmentScore hs ms <= calculateEnvironmentScore hs' ms'.
Proof.
  intros Hs Hr. rewrite !calculateEnvironmentScore_spec.
  unfold specScore, Math_round. apply Qfloor_resp_le.
  rewrite Zle_Qle in Hs. lra.
Qed.

(** X13. How the score moves.  A capture never lowers the environment
    score; from a reachable state a report never raises it; joining an
    event, inviting a friend, reading notifications and resolving the
    location leave it as it is. *)
Theorem X13_score_moves s now a :
  reachable s ->
  match a with
  | Capture _ => environmentScore s <= environmentScore (dispatch now a s)
  | Report _ => environmentScore (dispatch now a s) <= environmentScore s
  | _ => environmentScore (dispatch now a s) = environmentScore s
  end.
Proof.
  intros Hr. pose proof (reachable_Inv s Hr) as [_ _ _ Hhot _].
  unfold environmentScore.
  destruct (dispatch_frame now a s) as (-> & -> & _).
  assert (Hsame : forall a', (forall l, a' <> Report l) ->
                             hotspots (handle now a' s) = hotspots s).
  { intros a' Hn. destruct (handle_hotspots now a' s) as [H|(l & E & _)];
      [exact H|]. exfalso. exact (Hn l E). }
  assert (Mfix : forall a', (forall i, a' <> Capture i) ->
                            monsters (handle now a' s) = monsters s).
  { intros a' Hn. destruct a'; try reflexivity; try (exfalso; eapply Hn; reflexivity);
      cbv beta iota delta [handle run].
    - rewrite reportIllegalDumping_run. cbn.
      rewrite (proj1 (proj2 (proj2 (proj2 (afterMission_frame _ _ _ _))))).
      reflexivity.
    - rewrite joinEvent_run. destruct (find _ _); [|reflexivity]. cbn.
      rewrite (proj1 (proj2 (proj2 (proj2 (afterMission_frame _ _ _ _))))).
      reflexivity.
    - rewrite inviteFriend_run. cbn.
      rewrite (proj1 (proj2 (proj2 (proj2 (afterMission_frame _ _ _ _))))).
      reflexivity. }
  destruct a.
  - rewrite Hsame by discriminate. rewrite handle_capture_monsters.
    apply score_mono; [lia|apply specCaptureRate_captureIf].
  - rewrite Mfix by discriminate.
    destruct (handle_hotspots now (Report location) s) as [->|(l & E & ->)];
      [lia|].
    apply score_mono; [|apply Qle_refl].
    unfold reportedHotspots. destruct (find _ _).
    + apply specSeverity_reportIf, Hhot.
    + rewrite specSeverity_app. unfold specSeverity at 3. cbn. lia.
  - rewrite Hsame, Mfix by discriminate. reflexivity.
  - rewrite Hsame, Mfix by discriminate. reflexivity.
  - rewrite Hsame, Mfix by discriminate. reflexivity.
  - rewrite Hsame, Mfix by discriminate. reflexivity.
  - rewrite Hsame, Mfix by discriminate. reflexivity.
Qed.

Lemma X13_score_moves_witness :
  environmentScore initialState <=
  environmentScore (dispatch 0 (Capture 4) initialState) /\
  environmentScore (dispatch 0 (Report defaultLocation) initialState) <=
  environmentScore initialState.
Proof.
  split.
  - apply (X13_score_moves initialState 0 (Capture 4)). constructor.
  - apply (X13_score_moves initialState 0 (Report defaultLocation)). constructor.
Defined.

(** ** Joining events and inviting friends *)

Lemma missionClosed_afterMission c mid nid s :
  missionOpen c mid = false -> afterMission c mid nid s = s.
Proof. unfold afterMission. intros ->. reflexivity. Qed.

(** X14. [joinEvent] on an id no event has changes nothing.  On the id of
    an event it adds exactly 1 to the participants of every event with that
    id and leaves the other events alone, each time it is called (nothing
    stops a second join), and adds 1 to the progress of the badge with id 4;
    it never credits the event's own reward: once the community mission
    (id 4) is completed or absent, it leaves points and missions as they are
    and only adds the join notification. *)
Theorem X14_joinEvent s now eventId :
  (find (fun e => Event.id e =? eventId) (events s) = None ->
   handle now (Join eventId) s = s) /\
  (forall event,
     find (fun e => Event.id e =? eventId) (events s) = Some event ->
     events (dispatch now (Join eventId) s) =
       map (fun e => if Event.id e =? eventId then addParticipant e else e)
         (events s) /\
     Forall2
       (fun e e' =>
          Event.id e' = Event.id e /\ Event.reward e' = Event.reward e /\
          Event.participants e' =
          Event.participants e + (if Event.id e =? eventId then 1 else 0))
       (events s) (events (dispatch now (Join eventId) s)) /\
     badges (handle now (Join eventId) s) =
       map (addBadgeProgress 4) (badges s) /\
     (missionOpen s 4 = false ->
      userPoints (handle now (Join eventId) s) = userPoints s /\
      missions (handle now (Join eventId) s) = missions s /\
      notifications (handle now (Join eventId) s) =
        notify now (MsgJoined (Event.title event) (Event.reward event))
        :: notifications s)).
Proof.
  split.
  - intros F. cbv beta iota delta [handle run]. rewrite joinEvent_run, F.
    reflexivity.
  - intros event F.
    assert (E : events (dispatch now (Join eventId) s) =
                map (fun e => if Event.id e =? eventId
                              then addParticipant e else e) (events s)).
    { unfold dispatch. cbv zeta.
      rewrite (proj2 (proj2 (proj2 (proj2 (settle_frame _ _ _))))).
      cbv beta iota delta [handle run]. rewrite joinEvent_run, F.
      cbn [events with_badges].
      rewrite (proj2 (proj2 (proj2 (proj2 (proj2 (afterMission_frame _ _ _ _)))))).
      reflexivity. }
    split; [exact E|]. split.
    { rewrite E. clear. induction (events s) as [|e l IH]; cbn [map];
        constructor; [|exact IH].
      destruct (Event.id e =? eventId); cbn; repeat split; lia. }
    cbv beta iota delta [handle run]. rewrite joinEvent_run, F.
    split; [reflexivity|].
    intros Hc. rewrite (missionClosed_afterMission _ _ _ _ Hc).
    repeat split.
Qed.

Lemma X14_joinEvent_witness :
  handle 0 (Join 99) initialState = initialState /\
  map Event.participants (events (dispatch 0 (Join 2) initialState)) =
    [23; 16; 31] /\
  map Event.participants
    (events (dispatch 0 (Join 2) (dispatch 0 (Join 2) initialState))) =
    [23; 17; 31].
Proof.
  split.
  - apply (X14_joinEvent initialState 0 99). reflexivity.
  - split.
    + destruct (X14_joinEvent initialState 0 2) as [_ H].
      destruct (H (Event.mk 2 "업사이클링 워크샵" 15 200) eq_refl) as (-> & _).
      reflexivity.
    + reflexivity.
Defined.

(** X15. [inviteFriend] always returns true and always leaves the invite
    notification on top.  Once the invite mission (id 3) is completed or
    absent an invitation changes nothing else: points, level, missions and
    badges stay as they are, also through the renders that follow. *)
Theorem X15_inviteFriend s now :
  fst (inviteFriend s now s) = true /\
  (exists rest,
     notifications (snd (inviteFriend s now s)) = notify now MsgInvited :: rest) /\
  (missionOpen s 3 = false ->
   handle now Invite s =
     with_notifications (notify now MsgInvited :: notifications s) s /\
   (effectsIdle s = true ->
    dispatch now Invite s =
      with_notifications (notify now MsgInvited :: notifications s) s)).
Proof.
  rewrite inviteFriend_run. cbn [fst snd].
  split; [reflexivity|]. split; [eexists; reflexivity|].
  intros Hc.
  assert (E : handle now Invite s =
              with_notifications (notify now MsgInvited :: notifications s) s).
  { cbv beta iota delta [handle run]. rewrite inviteFriend_run. cbn [snd].
    rewrite (missionClosed_afterMission _ _ _ _ Hc). reflexivity. }
  split; [exact E|]. intros Hi. unfold dispatch. cbv zeta. rewrite E.
  apply settle_of_idle. exact Hi.
Qed.

Lemma X15_inviteFriend_witness :
  let s := dispatch 0 Invite (dispatch 0 Invite initialState) in
  map Mission.completed (missions s) = [false; false; true; false] /\
  dispatch 1 Invite s =
    with_notifications (notify 1 MsgInvited :: notifications s) s.
Proof.
  cbv zeta. split; [reflexivity|].
  apply (X15_inviteFriend
           (dispatch 0 Invite (dispatch 0 Invite initialState)) 1);
    [reflexivity|apply dispatch_idle].
Defined.

(** ** Progress bars *)

Lemma ratio_percent p t :
  0 <= p -> 0 < t ->
  (0 <= inject_Z p / inject_Z t * 100)%Q /\
  (p <= t <-> (inject_Z p / inject_Z t * 100 <= 100)%Q) /\
  (t <= p <-> (100 <= inject_Z p / inject_Z t * 100)%Q).
Proof.
  intros Hp Ht.
  assert (Htq : (0 < inject_Z t)%Q).
  { replace 0%Q with (inject_Z 0) by reflexivity. rewrite <- Zlt_Qlt. exact Ht. }
  assert (Hpq : (0 <= inject_Z p)%Q).
  { replace 0%Q with (inject_Z 0) by reflexivity. rewrite <- Zle_Qle. exact Hp. }
  assert (R0 : (0 <= inject_Z p / inject_Z t)%Q).
  { apply Qle_shift_div_l; [exact Htq|]. rewrite Qmult_0_l. exact Hpq. }
  assert (R1 : (inject_Z p / inject_Z t <= 1)%Q <-> p <= t).
  { split; intros H.
    - apply Qmult_le_compat_r with (z := inject_Z t) in H; [|lra].
      rewrite Qmult_comm, Qmult_div_r, Qmult_1_l in H by lra.
      rewrite Zle_Qle. exact H.
    - apply Qle_shift_div_r; [exact Htq|]. rewrite Qmult_1_l.
      rewrite <- Zle_Qle. exact H. }
  assert (R2 : (1 <= inject_Z p / inject_Z t)%Q <-> t <= p).
  { split; intros H.
    - apply Qmult_le_compat_r with (z := inject_Z t) in H; [|lra].
      rewrite (Qmult_comm (_ / _)), Qmult_div_r, Qmult_1_l in H by lra.
      rewrite Zle_Qle. exact H.
    - apply Qle_shift_div_l; [exact Htq|]. rewrite Qmult_1_l.
      rewrite <- Zle_Qle. exact H. }
  split; [lra|]. split.
  - rewrite <- R1. split; intros; lra.
  - rewrite <- R2. split; intros; lra.
Qed.

Lemma reachable_mission_shape s :
  reachable s ->
  Forall (fun m => 0 <= Mission.progress m /\ 0 < Mission.total m) (missions s).
Proof.
  induction 1 as [|now a s _ IH].
  - cbn. repeat constructor; cbn; lia.
  - destruct (dispatch_frame now a s) as (_ & _ & ->).
    destruct (handle_missions now a s) as [->|(mid & _ & ->)]; [exact IH|].
    rewrite Forall_forall in *. intros x Hin. apply in_map_iff in Hin.
    destruct Hin as (m & <- & Hin). specialize (IH m Hin).
    unfold advanceIf. destruct (_ =? _); cbn; lia.
Qed.

Lemma reachable_badges_grown s :
  reachable s -> Forall2 badgeGrows (badges initialState) (badges s).
Proof.
  induction 1 as [|now a s Hr IH]; [apply Forall2_badgeGrows_refl|].
  eapply Forall2_badgeGrows_trans; [exact IH|].
  unfold dispatch. cbv zeta.
  eapply Forall2_badgeGrows_trans; [apply badgeGrows_handle|].
  apply badgeGrows_settle, Sound_handle, reachable_Sound, Hr.
Qed.

Lemma reachable_badge_shape s :
  reachable s ->
  Forall (fun b => 0 <= Badge.progress b /\ 0 < Badge.total b) (badges s).
Proof.
  intros Hr. pose proof (reachable_badges_grown s Hr) as H.
  assert (H0 : Forall (fun b => 0 <= Badge.progress b /\ 0 < Badge.total b)
                 (badges initialState)).
  { cbn. repeat constructor; cbn; lia. }
  revert H0. induction H as [|b b' l l' Hb _ IH]; intros H0; constructor.
  - inversion H0; subst. destruct Hb as (_ & _ & Et & Hp & _). lia.
  - inversion H0; subst. apply IH. assumption.
Qed.

Lemma unlocked_iff_at_rest s :
  reachable s ->
  Forall
    (fun b => Badge.unlocked b = true <-> Badge.total b <= Badge.progress b)
    (badges s).
Proof.
  intros Hr. pose proof (reachable_Inv s Hr) as [_ _ _ _ Hi].
  pose proof (reachable_Sound s Hr) as [_ _ _ _ Hu _ _ _].
  apply idle_iff in Hi. destruct Hi as [_ Hi].
  rewrite Forall_forall in *. intros b Hin. split; [apply Hu, Hin|].
  intros Hle. destruct (Badge.unlocked b) eqn:U; [reflexivity|exfalso].
  assert (K : existsb unlockable (badges s) = true).
  { apply existsb_exists. exists b. split; [exact Hin|].
    unfold unlockable. rewrite U. apply andb_true_iff. split; [|reflexivity].
    apply Z.leb_le. exact Hle. }
  congruence.
Qed.

(** X16. In every reachable state the progress bars stay within their
    track.  The width of a mission's bar, progress / total * 100 with no
    clamp, lies between 0 and 100 and is 100 exactly when the mission is
    completed.  The width of a badge's bar, clamped with [Math.min] because
    badge progress can pass the total, lies between 0 and 100 and is 100
    exactly when the badge is unlocked. *)
Theorem X16_progress_bars s :
  reachable s ->
  Forall
    (fun m =>
       (0 <= missionBarWidth m <= 100)%Q /\
       (missionBarWidth m == 100 <-> Mission.completed m = true)%Q)
    (missions s) /\
  Forall
    (fun b =>
       (0 <= badgeBarWidth b <= 100)%Q /\
       (badgeBarWidth b == 100 <-> Badge.unlocked b = true)%Q)
    (badges s).
Proof.
  intros Hr. split.
  - pose proof (reachable_mission_shape s Hr) as Hs.
    pose proof (reachable_Inv s Hr) as [_ Hok _ _ _].
    pose proof (reachable_Sound s Hr) as [_ _ Hc _ _ _ _ _].
    rewrite Forall_forall in *. intros m Hin.
    destruct (Hs m Hin) as [Hp Ht]. destruct (Hok m Hin) as (_ & Hle & _).
    specialize (Hc m Hin). unfold missionBarWidth.
    destruct (ratio_percent _ _ Hp Ht) as (R0 & R1 & R2).
    pose proof (proj1 R1 Hle) as Hw.
    split; [split; assumption|]. rewrite Hc. split; intros H.
    + apply Z.leb_le. apply R2. rewrite H. apply Qle_refl.
    + apply Z.leb_le in H. apply R2 in H. apply Qle_antisym; assumption.
  - pose proof (reachable_badge_shape s Hr) as Hs.
    pose proof (unlocked_iff_at_rest s Hr) as Hu.
    rewrite Forall_forall in *. intros b Hin.
    destruct (Hs b Hin) as [Hp Ht]. specialize (Hu b Hin).
    unfold badgeBarWidth.
    destruct (ratio_percent _ _ Hp Ht) as (R0 & R1 & R2).
    set (r := (inject_Z (Badge.progress b) / inject_Z (Badge.total b) * 100)%Q) in *.
    destruct (Q.min_spec r 100) as [[Hlt E]|[Hge E]]; rewrite E.
    + split; [split; [exact R0|apply Qlt_le_weak, Hlt]|].
      rewrite Hu, R2. split; intros H; [rewrite H in Hlt|]; exfalso;
        eapply Qlt_irrefl; eapply Qlt_le_trans; eauto. apply Qle_refl.
    + split; [split; [discriminate|apply Qle_refl]|].
      rewrite Hu, R2. split; intros _; [exact Hge|reflexivity].
Qed.

Lemma X16_progress_bars_witness :
  Forall
    (fun b =>
       (0 <= badgeBarWidth b <= 100)%Q /\
       (badgeBarWidth b == 100 <-> Badge.unlocked b = true)%Q)
    (badges
       (dispatch 0 (Report defaultLocation)
          (dispatch 0 (Report defaultLocation)
             (dispatch 0 (Report defaultLocation) initialState)))).
Proof.
  apply X16_progress_bars. repeat constructor.
Defined.

Lemma reachable_points_floor s : reachable s -> 750 <= userPoints s.
Proof.
  induction 1 as [|now a s Hr IH]; [cbn; lia|].
  pose proof (reachable_Sound s Hr) as [Hmon Hrew _ _ _ _ _ _].
  pose proof (handle_userPoints_le now a s Hmon Hrew).
  pose proof (settle_userPoints_le (renders (handle now a s)) now (handle now a s)).
  unfold dispatch. cbv zeta. lia.
Qed.

(** X17. In every reachable state the level and the progress within the
    level, points % 100, account for the points exactly:
    points = (level - 1) * 100 + points % 100, and the progress (the width
    of the profile screen's level bar in percent) is at least 0 and below
    100.  The points never fall below the 750 of the seed data. *)
Theorem X17_level_bar s :
  reachable s ->
  750 <= userPoints s /\
  userPoints s = (level s - 1) * 100 + levelProgress (userPoints s) /\
  0 <= levelProgress (userPoints s) < 100.
Proof.
  intros Hr. pose proof (reachable_points_floor s Hr) as Hp.
  pose proof (reachable_Inv s Hr) as [_ _ _ _ Hi].
  apply idle_iff in Hi. destruct Hi as [Hok _]. unfold levelOk in Hok.
  unfold levelProgress.
  assert (Er : Z.rem (userPoints s) 100 = userPoints s mod 100)
    by (apply Z.rem_mod_nonneg; lia).
  pose proof (Z.mod_pos_bound (userPoints s) 100 ltac:(lia)) as [M0 M1].
  pose proof (Z.div_mod (userPoints s) 100 ltac:(lia)) as D.
  split; [exact Hp|]. rewrite Er, Hok. split; lia.
Qed.

(** After the capture of monster 5 of the seed data: 795 points, level 8
    and 95 points into it. *)
Lemma X17_level_bar_witness :
  let s := dispatch 0 (Capture 5) initialState in
  userPoints s = (level s - 1) * 100 + levelProgress (userPoints s) /\
  levelProgress (userPoints s) = 95.
Proof.
  cbv zeta. split.
  - apply (X17_level_bar (dispatch 0 (Capture 5) initialState)).
    repeat constructor.
  - reflexivity.
Defined.

(** ** Badge bonuses of one operation *)

Lemma settle_bonus fuel now : forall s,
  userPoints (settle fuel now s) + 100 * Z.of_nat (locked (badges (settle fuel now s)))
  <= userPoints s + 100 * Z.of_nat (locked (badges s)).
Proof.
  induction fuel as [|fuel IH]; intros s; cbn [settle]; [lia|].
  destruct (effectsIdle s); [lia|].
  specialize (IH (runEffects now s)).
  destruct (existsb unlockable (badges s)) eqn:U.
  - destruct (runEffects_unlocks now s U) as [_ Hlt].
    pose proof (runEffects_userPoints now s) as Ep. rewrite U in Ep. lia.
  - destruct (runEffects_relevel now s U) as [_ Hl].
    pose proof (runEffects_userPoints now s) as Ep. rewrite U in Ep. lia.
Qed.

Lemma settle_locked_le fuel now : forall s,
  (locked (badges (settle fuel now s)) <= locked (badges s))%nat.
Proof.
  induction fuel as [|fuel IH]; intros s; cbn [settle]; [lia|].
  destruct (effectsIdle s); [lia|].
  specialize (IH (runEffects now s)).
  destruct (existsb unlockable (badges s)) eqn:U.
  - destruct (runEffects_unlocks now s U) as [_ Hlt]. lia.
  - destruct (runEffects_relevel now s U) as [_ Hl]. lia.
Qed.

Lemma locked_addBadgeProgress k l :
  locked (map (addBadgeProgress k) l) = locked l.
Proof.
  unfold locked. induction l as [|b l IH]; [reflexivity|].
  cbn [map filter].
  replace (Badge.unlocked (addBadgeProgress k b)) with (Badge.unlocked b)
    by (unfold addBadgeProgress; destruct (_ =? _); reflexivity).
  destruct (Badge.unlocked b); cbn; rewrite IH; reflexivity.
Qed.

(** X18. The badge bonuses of one operation.  On top of what its handler
    leaves, an operation adds to the points at most 100 for each badge it
    unlocks (badges unlocked on the same render share one bonus of 100), and
    it never locks a badge again; an operation that unlocks no badge adds
    nothing on top of its handler. *)
Theorem X18_badge_bonus s now a :
  let unlockedNow :=
    (Z.of_nat (locked (badges s)) -
     Z.of_nat (locked (badges (dispatch now a s)))) in
  0 <= unlockedNow /\
  userPoints (handle now a s) <= userPoints (dispatch now a s) /\
  userPoints (dispatch now a s) <= userPoints (handle now a s) + 100 * unlockedNow.
Proof.
  cbv zeta. unfold dispatch. cbv zeta.
  pose proof (settle_bonus (renders (handle now a s)) now (handle now a s)) as Hb.
  pose proof (settle_locked_le (renders (handle now a s)) now (handle now a s)) as Hl.
  pose proof (settle_userPoints_le (renders (handle now a s)) now (handle now a s)).
  assert (E : locked (badges (handle now a s)) = locked (badges s)).
  { destruct (handle_badges now a s) as [->|(k & _ & ->)]; [reflexivity|].
    apply locked_addBadgeProgress. }
  rewrite E in Hb, Hl. lia.
Qed.

(** ** [useLocalStorage] *)

(** X19. What a hook stores it reads back.  When the browser accepts the
    write and [JSON.parse] undoes [JSON.stringify] on the value (whose JSON
    text is not empty), the next mount of the hook starts from the value
    [setValue] stored, whatever the default; the items under other keys are
    untouched.  When the browser refuses the write, React's state still
    takes the new value but the storage, and so the next mount, keeps the
    old one. *)
Theorem X19_stored_value_round_trip
    (A : Type) (stringify : A -> string) (parse : string -> option A)
    (accepts : LocalStorage -> string -> string -> bool)
    (key : string) (storedValue initialValue : A)
    (value : SetStateAction A) (ls : LocalStorage) :
  let v := valueToStore storedValue value in
  let r := setValue A stringify accepts key storedValue value ls in
  fst r = v /\
  (forall other, other <> key -> getItem (snd r) other = getItem ls other) /\
  (accepts ls key (stringify v) = true ->
   parse (stringify v) = Some v -> stringify v <> "" ->
   readStoredValue A parse key initialValue (snd r) = v) /\
  (accepts ls key (stringify v) = false ->
   snd r = ls /\
   readStoredValue A parse key initialValue (snd r) =
   readStoredValue A parse key initialValue ls).
Proof.
  cbv zeta. unfold setValue. cbv zeta. cbn [fst snd].
  split; [reflexivity|]. split.
  - intros other Hne. destruct (accepts _ _ _); [|reflexivity].
    unfold getItem, setItem. apply String.eqb_neq in Hne. rewrite Hne.
    reflexivity.
  - split.
    + intros -> Hp Hne. unfold readStoredValue, getItem, setItem.
      rewrite String.eqb_refl. apply String.eqb_neq in Hne. rewrite Hne, Hp.
      reflexivity.
    + intros ->. split; reflexivity.
Qed.

Lemma X19_stored_value_round_trip_witness :
  readStoredValue bool parseBool "notifications-enabled" true
    (snd (setValue bool stringifyBool (fun _ _ _ => true)
            "notifications-enabled" true (Value false) (fun _ => None)))
  = false.
Proof.
  apply (X19_stored_value_round_trip bool stringifyBool parseBool
           (fun _ _ _ => true) "notifications-enabled" true true
           (Value false) (fun _ => None));
    [reflexivity|reflexivity|discriminate].
Defined.

(** X20. A mount falls back to the default exactly when there is nothing
    usable in the storage: no item under the key, an empty item, or an item
    [JSON.parse] rejects; otherwise it starts from the parsed item and the
    default plays no part. *)
Theorem X20_stored_value_fallback
    (A : Type) (parse : string -> option A)
    (key : string) (initialValue : A) (ls : LocalStorage) :
  (getItem ls key = None ->
   readStoredValue A parse key initialValue ls = initialValue) /\
  (getItem ls key = Some "" ->
   readStoredValue A parse key initialValue ls = initialValue) /\
  (forall item, getItem ls key = Some item -> parse item = None ->
   readStoredValue A parse key initialValue ls = initialValue) /\
  (forall item value, getItem ls key = Some item -> item <> "" ->
   parse item = Some value ->
   forall other, readStoredValue A parse key other ls = value).
Proof.
  unfold readStoredValue. repeat split.
  - intros ->. reflexivity.
  - intros ->. reflexivity.
  - intros item -> ->. destruct (String.eqb item ""); reflexivity.
  - intros item value -> Hne -> other. apply String.eqb_neq in Hne.
    rewrite Hne. reflexivity.
Qed.

Lemma X20_stored_value_fallback_witness :
  readStoredValue bool parseBool "notifications-enabled" true (fun _ => None)
  = true /\
  readStoredValue bool parseBool "notifications-enabled" true
    (setItem (fun _ => None) "notifications-enabled" "tru") = true /\
  readStoredValue bool parseBool "notifications-enabled" true
    (setItem (fun _ => None) "notifications-enabled" "false") = false.
Proof.
  destruct (X20_stored_value_fallback bool parseBool "notifications-enabled"
              true (fun _ => None)) as (H1 & _).
  destruct (X20_stored_value_fallback bool parseBool "notifications-enabled"
              true (setItem (fun _ => None) "notifications-enabled" "tru"))
    as (_ & _ & H3 & _).
  destruct (X20_stored_value_fallback bool parseBool "notifications-enabled"
              true (setItem (fun _ => None) "notifications-enabled" "false"))
    as (_ & _ & _ & H4).
  split; [apply H1; reflexivity|].
  split; [apply (H3 "tru"); reflexivity|].
  apply (H4 "false" false); [reflexivity|discriminate|reflexivity].
Defined.

(** X21. Within one render the writes of a hook do not build on each
    other.  Two [setValue] calls made from the same render leave, in React's
    state and (when the browser accepts the writes) in the storage, what the
    second call alone would leave: after [setValue(f)] and [setValue(g)] the
    value is [g(storedValue)], not [g(f(storedValue))].  The engine's setters
    follow: two updates of the points in one handler leave the second. *)
Theorem X21_last_write_wins
    (A : Type) (stringify : A -> string)
    (key : string) (storedValue : A) (first second : SetStateAction A)
    (ls : LocalStorage) (c : State) (f g : Z -> Z) (s : State) :
  let accept := fun (_ : LocalStorage) (_ _ : string) => true in
  let r1 := setValue A stringify accept key storedValue first ls in
  let r2 := setValue A stringify accept key storedValue second (snd r1) in
  fst r2 = valueToStore storedValue second /\
  (forall k, getItem (snd r2) k =
             getItem (snd (setValue A stringify accept key storedValue second ls)) k) /\
  (forall f' g', first = Updater f' -> second = Updater g' ->
                 fst r2 = g' storedValue) /\
  snd ((setUserPoints c (Updater f) ;; setUserPoints c (Updater g)) s) =
  snd (setUserPoints c (Updater g) s) /\
  userPoints (snd ((setUserPoints c (Updater f) ;; setUserPoints c (Updater g)) s))
  = g (userPoints c).
Proof.
  cbv zeta. unfold setValue. cbv zeta. cbn [fst snd].
  split; [reflexivity|]. split.
  - intros k. unfold getItem, setItem. destruct (String.eqb k key); reflexivity.
  - split; [intros f' g' _ ->; reflexivity|]. split; reflexivity.
Qed.

Lemma X21_last_write_wins_witness :
  fst (setValue Z (fun _ => "n") (fun _ _ _ => true) "ecoquest-points" 750
         (Updater (fun prev => prev + 50))
         (snd (setValue Z (fun _ => "n") (fun _ _ _ => true) "ecoquest-points"
                 750 (Updater (fun prev => prev + 100)) (fun _ => None))))
  = 800.
Proof.
  destruct (X21_last_write_wins Z (fun _ => "n") "ecoquest-points" 750
              (Updater (fun prev => prev + 100))
              (Updater (fun prev => prev + 50)) (fun _ => None)
              initialState (fun p => p) (fun p => p) initialState)
    as (_ & _ & H & _).
  exact (H _ _ eq_refl eq_refl).
Defined.

(** ** The service worker's fetch handler *)

Section FetchHandlerFacts.

Variable Request Caches : Type.
Variable cachesMatch : Caches -> Request -> option Response.
Variable cachePut : Caches -> Request -> Response -> Caches.

(** What is put under a request is what the request matches next, and a
    put under a request that matched nothing disturbs no other match. *)
Hypothesis match_put :
  forall c r x, cachesMatch (cachePut c r x) r = Some x.
Hypothesis match_put_other :
  forall c r x r' v,
    cachesMatch c r = None -> cachesMatch c r' = Some v ->
    cachesMatch (cachePut c r x) r' = Some v.

Lemma onFetch_keeps network request caches r v :
  cachesMatch caches r = Some v ->
  cachesMatch (snd (onFetch Request Caches cachesMatch cachePut
                      network request caches)) r = Some v.
Proof.
  intros H. unfold onFetch.
  destruct (cachesMatch caches request) eqn:M; [exact H|].
  destruct network as [x|]; [|exact H].
  destruct (cacheable x); [|exact H].
  cbn [snd]. apply match_put_other; assumption.
Qed.

Lemma serveAll_keeps events : forall caches r v,
  cachesMatch caches r = Some v ->
  cachesMatch (serveAll Request Caches cachesMatch cachePut events caches) r
  = Some v.
Proof.
  induction events as [|e events IH]; intros caches r v H; [exact H|].
  cbn [serveAll fold_left]. apply IH. apply onFetch_keeps. exact H.
Qed.

End FetchHandlerFacts.

(** X22. The fetch handler is cache first and never refreshes.  A request
    the cache storage matches is answered from it without regard to the
    network, and the storage is left alone.  On a miss the network's answer
    is passed on; it is put in the cache only when its status is 200 and its
    type is basic, and then the same request is answered with it from then
    on, also when the network has failed since or would answer differently.
    A miss with the network down answers [undefined] and stores nothing.
    Whatever the later fetch events, a match once in the storage stays. *)
Theorem X22_fetch_cache_first
    (Request Caches : Type)
    (cachesMatch : Caches -> Request -> option Response)
    (cachePut : Caches -> Request -> Response -> Caches)
    (match_put : forall c r x, cachesMatch (cachePut c r x) r = Some x)
    (match_put_other :
       forall c r x r' v,
         cachesMatch c r = None -> cachesMatch c r' = Some v ->
         cachesMatch (cachePut c r x) r' = Some v)
    (caches : Caches) (request : Request) :
  let handler := onFetch Request Caches cachesMatch cachePut in
  (forall v network,
     cachesMatch caches request = Some v ->
     handler network request caches = (Some v, caches)) /\
  (cachesMatch caches request = None ->
   handler None request caches = (None, caches) /\
   (forall x, cacheable x = false ->
              handler (Some x) request caches = (Some x, caches)) /\
   (forall x, cacheable x = true ->
              fst (handler (Some x) request caches) = Some x /\
              forall events later,
                fst (handler later request
                       (serveAll Request Caches cachesMatch cachePut events
                          (snd (handler (Some x) request caches)))) = Some x)) /\
  (forall v events,
     cachesMatch caches request = Some v ->
     cachesMatch (serveAll Request Caches cachesMatch cachePut events caches)
       request = Some v).
Proof.
  cbv zeta. split; [|split].
  - intros v network H. unfold onFetch. rewrite H. reflexivity.
  - intros H. unfold onFetch at 1 2 3. rewrite H.
    split; [reflexivity|]. split.
    + intros x Hx. rewrite Hx. reflexivity.
    + intros x Hx. rewrite Hx. cbn [fst snd]. split; [reflexivity|].
      intros events later.
      assert (K : cachesMatch
                    (serveAll Request Caches cachesMatch cachePut events
                       (cachePut caches request x)) request = Some x).
      { apply serveAll_keeps; [exact match_put_other|apply match_put]. }
      unfold onFetch. rewrite H, Hx. cbn [snd]. rewrite K. reflexivity.
  - intros v events H. apply serveAll_keeps; assumption.
Qed.

Lemma X22_fetch_cache_first_witness :
  let ok := mkResponse 200 RBasic "<html>" in
  let other := mkResponse 200 RBasic "<html>new" in
  fst (onFetch string UrlCaches urlMatch urlPut None "/index.html"
         (serveAll string UrlCaches urlMatch urlPut
            [("/index.html", Some other); ("/logo192.png", None)]
            (snd (onFetch string UrlCaches urlMatch urlPut (Some ok)
                    "/index.html" (fun _ => None)))))
  = Some ok.
Proof.
  cbv zeta.
  assert (L1 : forall c r x, urlMatch (urlPut c r x) r = Some x).
  { intros c r x. unfold urlMatch, urlPut. rewrite String.eqb_refl. reflexivity. }
  assert (L2 : forall c r x r' v,
             urlMatch c r = None -> urlMatch c r' = Some v ->
             urlMatch (urlPut c r x) r' = Some v).
  { intros c r x r' v Hn Hs. unfold urlMatch, urlPut in *.
    destruct (String.eqb r' r) eqn:E; [|exact Hs].
    apply String.eqb_eq in E. subst. congruence. }
  destruct (X22_fetch_cache_first string UrlCaches urlMatch urlPut L1 L2
              (fun _ => None) "/index.html") as (_ & H & _).
  destruct (H eq_refl) as (_ & _ & K).
  destruct (K (mkResponse 200 RBasic "<html>") eq_refl) as [_ K'].
  apply K'.
Defined.

(** ** The chat *)

Lemma trimStart_nil_iff s : trimStart s = [] <-> forallb isWhiteSpace s = true.
Proof.
  induction s as [|c s IH]; cbn; [tauto|].
  destruct (isWhiteSpace c); cbn; [exact IH|]. split; discriminate.
Qed.

Lemma trimStart_head s c s' : trimStart s = c :: s' -> isWhiteSpace c = false.
Proof.
  induction s as [|a s IH]; cbn; [discriminate|].
  destruct (isWhiteSpace a) eqn:E; [exact IH|].
  intros H. inversion H; subst. exact E.
Qed.

Lemma forallb_rev (f : N -> bool) l : forallb f (rev l) = forallb f l.
Proof.
  induction l as [|a l IH]; [reflexivity|].
  cbn. rewrite forallb_app, IH. cbn. rewrite andb_true_r. apply andb_comm.
Qed.

Lemma trim_nil_iff s : trim s = [] <-> forallb isWhiteSpace s = true.
Proof.
  unfold trim. split; intros H.
  - assert (H1 : trimStart (rev (trimStart s)) = []).
    { apply (f_equal (@rev N)) in H. rewrite rev_involutive in H. exact H. }
    apply trimStart_nil_iff in H1. rewrite forallb_rev in H1.
    destruct (trimStart s) as [|c t] eqn:E; [apply trimStart_nil_iff, E|].
    pose proof (trimStart_head _ _ _ E) as Hc. cbn in H1. rewrite Hc in H1.
    discriminate.
  - apply trimStart_nil_iff in H. rewrite H. reflexivity.
Qed.

(** X23. Sending a chat message.  A text made only of white space (or
    empty) sends nothing and changes nothing.  Any other text is sent as it
    was typed, surrounding white space included: it becomes the last
    message, marked as the user's own, the earlier messages are kept in
    order, and the input is cleared. *)
Theorem X23_send_message now c :
  (forallb isWhiteSpace (messageText c) = true ->
   handleSendMessage now c = c) /\
  (forallb isWhiteSpace (messageText c) = false ->
   chatMessages (handleSendMessage now c) =
     chatMessages c ++ [mkChatMessage now "나" (messageText c) "방금" true] /\
   messageText (handleSendMessage now c) = [] /\
   handleSendMessage now (handleSendMessage now c) = handleSendMessage now c).
Proof.
  unfold handleSendMessage. split; intros H.
  - apply trim_nil_iff in H. rewrite H. reflexivity.
  - destruct (trim (messageText c)) as [|x t] eqn:E.
    + apply trim_nil_iff in E. congruence.
    + cbn [chatMessages messageText]. repeat split.
Qed.

Lemma X23_send_message_witness :
  handleSendMessage 7 (mkChatState [] [32; 9; 0x3000]%N) =
    mkChatState [] [32; 9; 0x3000]%N /\
  chatMessages (handleSendMessage 7 (mkChatState [] [32; 0xD55C; 32]%N)) =
    [mkChatMessage 7 "나" [32; 0xD55C; 32]%N "방금" true].
Proof.
  split.
  - apply (proj1 (X23_send_message 7 (mkChatState [] [32; 9; 0x3000]%N))).
    reflexivity.
  - apply (proj2 (X23_send_message 7 (mkChatState [] [32; 0xD55C; 32]%N))).
    reflexivity.
Defined.

(** ** Captures by waste type *)

(** X24. Only plastic counts for the plastic badge and mission.  The
    capture of a stored monster that is not plastic leaves every badge and
    every mission as it is.  The capture of a plastic one adds 1 to the
    progress of the badge with id 1, and advances the mission with id 1 by 1
    while that mission is open (a completed one stays as it is). *)
Theorem X24_capture_by_type s now id m :
  find (fun x => Monster.id x =? id) (monsters s) = Some m ->
  (Monster.type m <> plastic ->
   badges (handle now (Capture id) s) = badges s /\
   missions (handle now (Capture id) s) = missions s) /\
  (Monster.type m = plastic ->
   badges (handle now (Capture id) s) = map (addBadgeProgress 1) (badges s) /\
   missions (handle now (Capture id) s) =
     (if missionOpen s 1 then map (advanceIf 1) (missions s) else missions s) /\
   missions (dispatch now (Capture id) s) = missions (handle now (Capture id) s)).
Proof.
  intros F. cbv beta iota delta [handle run]. rewrite captureMonster_run.
  cbv zeta. rewrite F. split; intros Ty.
  - destruct (Monster.type m); try contradiction; split; reflexivity.
  - rewrite Ty. cbn [WasteType_eqb].
    rewrite (proj1 (proj2 (proj2 (proj2 (proj2 (afterMission_frame _ _ _ _)))))).
    rewrite afterMission_missions. split; [reflexivity|]. split; [reflexivity|].
    destruct (dispatch_frame now (Capture id) s) as (_ & _ & ->).
    cbv beta iota delta [handle run]. rewrite captureMonster_run.
    cbv zeta. rewrite F, Ty. cbn [WasteType_eqb].
    rewrite afterMission_missions. reflexivity.
Qed.

Lemma X24_capture_by_type_witness :
  map Badge.progress (badges (handle 0 (Capture 4) initialState)) =
    [4; 3; 12; 7; 8] /\
  map Badge.progress (badges (handle 0 (Capture 1) initialState)) =
    [5; 3; 12; 7; 8] /\
  map Mission.progress (missions (handle 0 (Capture 1) initialState)) =
    [2; 0; 1; 0].
Proof.
  destruct (X24_capture_by_type initialState 0 4
              (Monster.mk 4 "캔 골렘" metal 60 false 37.6022 127.0155 uncommon)
              eq_refl) as [H4 _].
  destruct (X24_capture_by_type initialState 0 1
              (Monster.mk 1 "쓰레기몬" plastic 50 false 37.602 127.015 common)
              eq_refl) as [_ H1].
  destruct H4 as [B4 _]; [discriminate|].
  destruct (H1 eq_refl) as (B1 & M1 & _).
  rewrite B4, B1, M1. repeat split.
Defined.
